(** * weather-cache-api: the TTL cache and the retry executor

    A shallow embedding of [src/services/cache.js] (class [CacheService])
    and of [src/utils/retry.js] ([retryWithExponentialBackoff]), with the
    properties the specification states about them.

    Conventions of the embedding.
    - The backing [Map] of the cache is a [gmap string cache_item].  The
      source iterates the [Map] in insertion order; both loops of the source
      ([getStats], [cleanup]) are folds whose steps commute, so the order is
      immaterial and [map_fold] stands for the [for ... of] loop.
    - [Date.now()] is an explicit argument [now : Z] (milliseconds); the TTL
      is a [Z] as well, negative values included.  Numbers that are not
      integers are outside the model.
    - A method that mutates [this.cache] returns the new store.
    - The asynchronous operation given to the retry executor is a function
      on an explicit world state; the executor returns how its promise
      settles together with the trace of its effects (invocations, log
      lines, sleeps).  [maxAttempts] and the delays are integers ([Z]), and
      the products [baseDelay * 2^k] are exact. *)

From stdpp Require Import gmap strings list fin_maps.
From Stdlib Require Import ZArith Lia.

(** ** Payloads used by the concrete examples *)

Inductive json : Type :=
  | JNull
  | JNum (n : Z)
  | JStr (s : string).

(** ** src/services/cache.js *)

Module Cache.

Section CacheService.

Context {Value : Type}.

(** The JavaScript value [null], which [get] returns for a miss. *)
Variable null : Value.

(** The object literal [{ data, expiresAt }] stored by [set]. *)
Record cache_item : Type := CacheItem { data : Value; expiresAt : Z }.

(** [now > item.expiresAt], the test shared by [get], [getStats] and
    [cleanup]. *)
Definition expired (now : Z) (item : cache_item) : bool :=
  (now >? expiresAt item)%Z.

(** [get(key)]: the returned value and the store after the call. *)
Definition get (now : Z) (key : string) (cache : gmap string cache_item)
  : Value * gmap string cache_item :=
  match cache !! key with
  | None => (null, cache)
  | Some item =>
      if expired now item then (null, delete key cache)
      else (data item, cache)
  end.

(** [set(key, data, ttlMs)]. *)
Definition set (now : Z) (key : string) (d : Value) (ttlMs : Z)
    (cache : gmap string cache_item) : gmap string cache_item :=
  let expiresAt := (now + ttlMs)%Z in
  <[key := {| data := d; expiresAt := expiresAt |}]> cache.

(** The object returned by [getStats]. *)
Record stats : Type :=
  Stats { totalEntries : nat; validEntries : nat; expiredEntries : nat }.

(** One iteration of the loop of [getStats]; the accumulator is the pair of
    locals [(validEntries, expiredEntries)]. *)
Definition count_entry (now : Z) (key : string) (item : cache_item)
    (acc : nat * nat) : nat * nat :=
  if expired now item then (acc.1, S acc.2) else (S acc.1, acc.2).

Definition getStats (now : Z) (cache : gmap string cache_item) : stats :=
  let acc := map_fold (count_entry now) (0, 0) cache in
  {| totalEntries := size cache;
     validEntries := acc.1;
     expiredEntries := acc.2 |}.

(** One iteration of the loop of [cleanup]; the accumulator is
    [this.cache]. *)
Definition cleanup_entry (now : Z) (key : string) (item : cache_item)
    (acc : gmap string cache_item) : gmap string cache_item :=
  if expired now item then delete key acc else acc.

Definition cleanup (now : Z) (cache : gmap string cache_item)
  : gmap string cache_item :=
  map_fold (cleanup_entry now) cache cache.

(** The validity invariant in the words of the specification:
    an entry is valid iff [now < expiresAt]. *)
Definition spec_valid (now : Z) (item : cache_item) : Prop :=
  (now < expiresAt item)%Z.

End CacheService.

#[export] Instance spec_valid_dec {Value : Type} now
    (item : @cache_item Value) : Decision (spec_valid now item) :=
  Z_lt_dec now (expiresAt item).

(** *** Concrete stores for the examples *)

(** [set("weather:london", "sunny", 0)] at instant 100 on an empty cache. *)
Definition london_ttl0 : gmap string (@cache_item json) :=
  set 100 "weather:london" (JStr "sunny") 0 ∅.

(** One entry that expires at 150 and one that expires at 60100, both
    stored at instant 100. *)
Definition two_cities : gmap string (@cache_item json) :=
  set 100 "weather:paris" (JStr "rain") 60000
    (set 100 "weather:oslo" (JStr "snow") 50 ∅).

End Cache.

(** ** src/utils/retry.js *)

Module Retry.

(** How an awaited promise settles. *)
Inductive settled (E T : Type) : Type :=
  | Fulfilled (value : T)
  | Rejected (reason : E).
Arguments Fulfilled {E T} value.
Arguments Rejected {E T} reason.

(** The effects of one run, in the order they happen.  [Invoke attempt] is
    the [await fn()] of the iteration in which the loop variable is
    [attempt]. *)
Inductive event : Type :=
  | Invoke (attempt : Z)
  | Log (attempt delay : Z)
  | Sleep (ms : Z).

(** The two properties of a thrown value that the default classifier
    reads: [error.response?.status] and [error.code]; [None] is
    [undefined].  Thrown values are objects: the default classifier
    itself raises on a thrown [null] or [undefined], which is outside the
    model, as is a status that is not an integer. *)
Class ErrorShape (E : Type) : Type := {
  response_status : E -> option Z;
  code : E -> option string }.

(** [x >= n] when [x] may be [undefined] ([undefined >= n] is false). *)
Definition number_ge (x : option Z) (n : Z) : bool :=
  match x with
  | Some s => (s >=? n)%Z
  | None => false
  end.

(** [x === s] for a string literal [s]. *)
Definition strict_eq (x : option string) (s : string) : bool :=
  match x with
  | Some c => String.eqb c s
  | None => false
  end.

(** The default value of [options.shouldRetry]. *)
Definition defaultShouldRetry {E : Type} `{ErrorShape E} (error : E) : bool :=
  number_ge (response_status error) 500
  || strict_eq (code error) "ECONNABORTED"
  || strict_eq (code error) "ENOTFOUND"
  || strict_eq (code error) "ECONNRESET".

(** The [options] argument; a field that is [None] is absent (or
    [undefined]) and takes its default in the destructuring. *)
Record options (E : Type) : Type := Options {
  maxAttempts : option Z;
  baseDelay : option Z;
  maxDelay : option Z;
  shouldRetry : option (E -> bool) }.
Arguments Options {E} _ _ _ _.
Arguments maxAttempts {E} _.
Arguments baseDelay {E} _.
Arguments maxDelay {E} _.
Arguments shouldRetry {E} _.

(** What a run leaves behind: how the returned promise settles (a
    rejection reason [None] is the value [undefined]), the state of the
    world the operation acts on, and the effects performed. *)
Record run (E T W : Type) : Type := Run {
  outcome : settled (option E) T;
  world : W;
  trace : list event }.
Arguments Run {E T W} _ _ _.
Arguments outcome {E T W} _.
Arguments world {E T W} _.
Arguments trace {E T W} _.

Section Executor.

Context {E T W : Type}.

(** The operation [fn]: awaiting [fn()] in world [w] settles and leaves a
    new world. *)
Variable fn : W -> settled E T * W.

Variables (maxAttempts baseDelay maxDelay : Z) (shouldRetry : E -> bool).

(** The [for] loop, entered at its condition with the loop variable equal
    to [attempt].  [fuel] bounds the number of times the condition is
    evaluated; [None] means the bound was too small. *)
Fixpoint attempts (fuel : nat) (attempt : Z) (lastError : option E) (w : W)
    (tr : list event) : option (run E T W) :=
  match fuel with
  | O => None
  | S fuel' =>
      if (attempt <=? maxAttempts)%Z then
        match fn w with
        | (Fulfilled value, w') =>
            Some (Run (Fulfilled value) w' (tr ++ [Invoke attempt]))
        | (Rejected error, w') =>
            if (attempt =? maxAttempts)%Z || negb (shouldRetry error) then
              Some (Run (Rejected (Some error)) w' (tr ++ [Invoke attempt]))
            else
              let delay :=
                Z.min (baseDelay * 2 ^ (attempt - 1)) maxDelay in
              attempts fuel' (attempt + 1)%Z (Some error) w'
                (tr ++ [Invoke attempt; Log attempt delay; Sleep delay])
        end
      else Some (Run (Rejected lastError) w tr)
  end.

(** The world after [n] consecutive invocations of [fn]. *)
Fixpoint world_after (n : nat) (w : W) : W :=
  match n with
  | O => w
  | S n' => world_after n' (fn w).2
  end.

(** How the [n]-th invocation ([n = 1, 2, ...]) settles when [fn] is
    invoked again and again from world [w]. *)
Definition nth_invocation (w : W) (n : nat) : settled E T :=
  (fn (world_after (pred n) w)).1.

(** The effects of a run that starts with attempt [a] and retries [k]
    times. *)
Fixpoint schedule (k : nat) (a : Z) : list event :=
  match k with
  | O => [Invoke a]
  | S k' =>
      let delay := Z.min (baseDelay * 2 ^ (a - 1)) maxDelay in
      Invoke a :: Log a delay :: Sleep delay :: schedule k' (a + 1)%Z
  end.

End Executor.

(** [retryWithExponentialBackoff(fn, options)], run in world [w].  The loop
    evaluates its condition at most [maxAttempts + 1] times, which is the
    fuel it is given. *)
Definition retryWithExponentialBackoff {E T W : Type} `{ErrorShape E}
    (fn : W -> settled E T * W) (opts : options E) (w : W)
  : option (run E T W) :=
  let maxAttempts := default 3%Z (maxAttempts opts) in
  let baseDelay := default 1000%Z (baseDelay opts) in
  let maxDelay := default 10000%Z (maxDelay opts) in
  let shouldRetry := default defaultShouldRetry (shouldRetry opts) in
  attempts fn maxAttempts baseDelay maxDelay shouldRetry
    (S (Z.to_nat maxAttempts)) 1%Z None w [].

(** *** Reading a trace *)

(** The number of times the operation was invoked. *)
Fixpoint invocations (tr : list event) : nat :=
  match tr with
  | [] => 0
  | Invoke _ :: rest => S (invocations rest)
  | _ :: rest => invocations rest
  end.

(** The durations slept, in order. *)
Fixpoint sleeps (tr : list event) : list Z :=
  match tr with
  | [] => []
  | Sleep ms :: rest => ms :: sleeps rest
  | _ :: rest => sleeps rest
  end.

(** The duration of the sleep that immediately precedes the invocation of
    attempt [i], if there is one. *)
Fixpoint delay_before (i : Z) (tr : list event) : option Z :=
  match tr with
  | [] => None
  | Sleep ms :: rest =>
      match rest with
      | Invoke a :: _ =>
          if (a =? i)%Z then Some ms else delay_before i rest
      | _ => delay_before i rest
      end
  | _ :: rest => delay_before i rest
  end.

(** *** Concrete errors and operations for the examples *)

(** An error in the shape axios produces. *)
Record axios_error : Type := AxiosError {
  message : string;
  status : option Z;
  errcode : option string }.

#[export] Instance axios_error_shape : ErrorShape axios_error :=
  {| response_status := status; code := errcode |}.

(** A jest mock: the queued outcomes are consumed one per call, and a
    call on an empty queue settles as [dflt]. *)
Definition mock {E T : Type} (dflt : settled E T)
    (queue : list (settled E T)) : settled E T * list (settled E T) :=
  match queue with
  | [] => (dflt, [])
  | o :: rest => (o, rest)
  end.

Definition econnreset : axios_error :=
  AxiosError "socket hang up" None (Some "ECONNRESET").

Definition bad_request : axios_error :=
  AxiosError "Request failed with status code 400" (Some 400%Z)
    (Some "ERR_BAD_REQUEST").

(** An operation that always fails with a server error; the world is the
    number of calls made so far, and the status tells the calls apart
    (500, 501, 502, ...). *)
Definition always_5xx (calls : nat) : settled axios_error string * nat :=
  (Rejected (AxiosError "server error" (Some (500 + Z.of_nat calls)%Z) None),
   S calls).

(** Options with every field absent: [{}]. *)
Definition no_options {E : Type} : options E := Options None None None None.

End Retry.

(** ** The remaining methods of [CacheService] (src/services/cache.js) *)

Module CacheService.

Section Methods.

Context {Value : Type}.

(** [delete(key)]: [this.cache.delete(key)]. *)
Definition delete (key : string)
    (cache : gmap string (@Cache.cache_item Value))
  : gmap string (@Cache.cache_item Value) :=
  base.delete key cache.

(** [clear()]: [this.cache.clear()]. *)
Definition clear (cache : gmap string (@Cache.cache_item Value))
  : gmap string (@Cache.cache_item Value) :=
  ∅.

End Methods.

End CacheService.

(** ** The weather service and its controller

    [WeatherService] (src/services/weatherService.js) and
    [WeatherController.getWeather] (src/controllers/weatherController.js),
    the callers of the cache and of the retry executor.

    - The built-ins [String.prototype.trim] and [toLowerCase], the
      truthiness of a cached value and the system clock are parameters.
    - The closure [fetchWeather] (the axios request followed by
      [transformWeatherData]) is the operation handed to the executor; how
      it settles is left open, so it is a parameter as well, and so is
      [getMockWeatherData], which draws random numbers.
    - What the service and the controller print on the console is not
      recorded. *)

Module Weather.

(** The value received as [city]: a string, or anything else
    ([undefined], [null], an array, an object). *)
Inductive city_arg : Type :=
  | CityString (s : string)
  | CityOther.

(** What [getWeatherByCity] can reject with: its own [Error] for a bad
    city name, the error of the fetch rethrown as it is, or the
    [TypeError] raised by [error.message] in its [catch] block when the
    fetch rejected with [undefined]. *)
Inductive service_error (E : Type) : Type :=
  | CityRequired
  | FetchError (error : E)
  | MessageOfUndefined.
Arguments CityRequired {E}.
Arguments FetchError {E} error.
Arguments MessageOfUndefined {E}.

(** The fields set by the constructor that the methods read;
    [apiKey = None] is [undefined]. *)
Record config : Type := Config {
  apiKey : option string;
  cacheTtl : Z;
  maxRetryAttempts : Z }.

(** What a call of [getWeatherByCity] leaves behind: how its promise
    settles, the cache, the world, and the effects of the executor. *)
Record reply (E Value W : Type) : Type := Reply {
  result : Retry.settled (service_error E) Value;
  cache_after : gmap string (@Cache.cache_item Value);
  end_world : W;
  upstream : list Retry.event }.
Arguments Reply {E Value W} _ _ _ _.
Arguments result {E Value W} _.
Arguments cache_after {E Value W} _.
Arguments end_world {E Value W} _.
Arguments upstream {E Value W} _.

(** [error.message], [undefined] when [None]. *)
Class ErrorMessage (E : Type) : Type := {
  message_of : E -> option string }.

(** [hay.includes(needle)]. *)
Fixpoint includes (needle hay : string) : bool :=
  String.prefix needle hay ||
  match hay with
  | EmptyString => false
  | String _ rest => includes needle rest
  end.

(** The value of [req.query.city]: absent, a string, or an array or
    object built by the query parser. *)
Inductive query_param : Type :=
  | QueryAbsent
  | QueryString (s : string)
  | QueryOther.

(** The JSON body of a response of [getWeather]. *)
Inductive body (Value : Type) : Type :=
  | Success (data : Value)
  | Failure (error message : string) (example : option string).
Arguments Success {Value} data.
Arguments Failure {Value} error message example.

Record response (Value : Type) : Type := Response {
  status : Z;
  payload : body Value }.
Arguments Response {Value} _ _.
Arguments status {Value} _.
Arguments payload {Value} _.

(** What a call of [getWeather] leaves behind; [answer = None] when the
    handler raised in its own [catch] block and sent nothing. *)
Record handled (Value W : Type) : Type := Handled {
  answer : option (response Value);
  handled_cache : gmap string (@Cache.cache_item Value);
  handled_world : W;
  handled_upstream : list Retry.event }.
Arguments Handled {Value W} _ _ _ _.
Arguments answer {Value W} _.
Arguments handled_cache {Value W} _.
Arguments handled_world {Value W} _.
Arguments handled_upstream {Value W} _.

Section Service.

Context {E Value W : Type} `{Retry.ErrorShape E} `{ErrorMessage E}.

Variable null : Value.
Variable truthy : Value -> bool.
Variables trim toLowerCase : string -> string.
Variable clock : W -> Z.
Variable fetchWeather : string -> W -> Retry.settled E Value * W.
Variable getMockWeatherData : string -> W -> Value * W.
Variable cfg : config.

(** [!this.apiKey]. *)
Definition no_api_key : bool :=
  match apiKey cfg with
  | None => true
  | Some key => String.eqb key ""
  end.

(** [fetchWeatherFromAPI(city)]. *)
Definition fetchWeatherFromAPI (city : string) (w : W)
  : option (Retry.run E Value W) :=
  if no_api_key then
    let mocked := getMockWeatherData city w in
    Some (Retry.Run (Retry.Fulfilled mocked.1) mocked.2 [])
  else
    Retry.retryWithExponentialBackoff (fetchWeather city)
      (Retry.Options (Some (maxRetryAttempts cfg)) (Some 1000%Z)
         (Some 8000%Z) None)
      w.

(** The cache key of a city name. *)
Definition cache_key (city : string) : string :=
  String.append "weather:" (toLowerCase (trim city)).

(** [getWeatherByCity(city)], called with the cache [cache] in world
    [w]. *)
Definition getWeatherByCity (city : city_arg)
    (cache : gmap string (@Cache.cache_item Value)) (w : W)
  : option (reply E Value W) :=
  match city with
  | CityOther => Some (Reply (Retry.Rejected CityRequired) cache w [])
  | CityString c =>
      if String.eqb c "" || (String.length (trim c) =? 0) then
        Some (Reply (Retry.Rejected CityRequired) cache w [])
      else
        let normalizedCity := toLowerCase (trim c) in
        let cacheKey := String.append "weather:" normalizedCity in
        let looked := Cache.get null (clock w) cacheKey cache in
        if truthy looked.1 then
          Some (Reply (Retry.Fulfilled looked.1) looked.2 w [])
        else
          match fetchWeatherFromAPI normalizedCity w with
          | None => None
          | Some r =>
              match Retry.outcome r with
              | Retry.Fulfilled weatherData =>
                  Some (Reply (Retry.Fulfilled weatherData)
                          (Cache.set (clock (Retry.world r)) cacheKey
                             weatherData (cacheTtl cfg) looked.2)
                          (Retry.world r) (Retry.trace r))
              | Retry.Rejected (Some error) =>
                  Some (Reply (Retry.Rejected (FetchError error)) looked.2
                          (Retry.world r) (Retry.trace r))
              | Retry.Rejected None =>
                  Some (Reply (Retry.Rejected MessageOfUndefined) looked.2
                          (Retry.world r) (Retry.trace r))
              end
          end
  end.

(** The [catch] block of [getWeather] for an error that has a message,
    a [response?.status] and a [code]. *)
Definition error_response (message : string) (status : option Z)
    (code : option string) : response Value :=
  if includes "City name is required" message then
    Response 400 (Failure "Bad Request" message None)
  else if bool_decide (status = Some 404%Z) then
    Response 404
      (Failure "Not Found"
         "City not found. Please check the city name and try again." None)
  else if bool_decide (status = Some 401%Z) then
    Response 500
      (Failure "Internal Server Error"
         "Weather service authentication failed" None)
  else if Retry.strict_eq code "ECONNABORTED"
          || Retry.strict_eq code "ENOTFOUND" then
    Response 503
      (Failure "Service Unavailable"
         "Weather service is temporarily unavailable. Please try again later."
         None)
  else
    Response 500
      (Failure "Internal Server Error"
         "An unexpected error occurred while fetching weather data" None).

(** [WeatherController.getWeather(req, res)], with [city] the value of
    [req.query.city]. *)
Definition getWeather (city : query_param)
    (cache : gmap string (@Cache.cache_item Value)) (w : W)
  : option (handled Value W) :=
  let missing :=
    Handled
      (Some (Response 400
               (Failure "Bad Request" "City parameter is required"
                  (Some "/weather?city=London"))))
      cache w [] in
  let call (arg : city_arg) :=
    match getWeatherByCity arg cache w with
    | None => None
    | Some rep =>
        let answered (a : option (response Value)) :=
          Some (Handled a (cache_after rep) (end_world rep) (upstream rep)) in
        match result rep with
        | Retry.Fulfilled weatherData =>
            answered (Some (Response 200 (Success weatherData)))
        | Retry.Rejected CityRequired =>
            answered
              (Some (error_response
                       "City name is required and must be a non-empty string"
                       None None))
        | Retry.Rejected (FetchError error) =>
            match message_of error with
            | None => answered None
            | Some message =>
                answered
                  (Some (error_response message
                           (Retry.response_status error) (Retry.code error)))
            end
        | Retry.Rejected MessageOfUndefined =>
            answered
              (Some (Response 500
                       (Failure "Internal Server Error"
                          "An unexpected error occurred while fetching weather data"
                          None)))
        end
    end in
  match city with
  | QueryAbsent => Some missing
  | QueryString c =>
      if String.eqb c "" then Some missing else call (CityString c)
  | QueryOther => call CityOther
  end.

End Service.

End Weather.

(** ** Concrete parameters for the examples of the weather service *)

Module Demo.

(** Truthiness of the payloads. *)
Definition truthy (v : json) : bool :=
  match v with
  | JNull => false
  | JNum n => negb (n =? 0)%Z
  | JStr s => negb (String.eqb s "")
  end.

(** [trim] and [toLowerCase] on ASCII strings with blanks. *)
Fixpoint trim_start (s : string) : string :=
  match s with
  | EmptyString => EmptyString
  | String c rest => if Ascii.eqb c (Ascii.ascii_of_nat 32) then trim_start rest else s
  end.

Fixpoint trim_end (s : string) : string :=
  match s with
  | EmptyString => EmptyString
  | String c rest =>
      match trim_end rest with
      | EmptyString =>
          if Ascii.eqb c (Ascii.ascii_of_nat 32) then EmptyString else String c EmptyString
      | rest' => String c rest'
      end
  end.

Definition trim (s : string) : string := trim_end (trim_start s).

Definition lower_char (c : Ascii.ascii) : Ascii.ascii :=
  let n := Ascii.nat_of_ascii c in
  if (65 <=? n) && (n <=? 90) then Ascii.ascii_of_nat (n + 32) else c.

Fixpoint toLowerCase (s : string) : string :=
  match s with
  | EmptyString => EmptyString
  | String c rest => String (lower_char c) (toLowerCase rest)
  end.

#[global] Instance axios_error_message : Weather.ErrorMessage Retry.axios_error :=
  {| Weather.message_of := fun e => Some (Retry.message e) |}.

(** The world: the clock and the outcomes queued for the upstream.  A
    request takes 40 ms and fails with a connection reset once the queue
    is empty; mock data takes 1 ms. *)
Definition clock (w : Z * list (Retry.settled Retry.axios_error json)) : Z :=
  w.1.

Definition fetchWeather (city : string)
    (w : Z * list (Retry.settled Retry.axios_error json))
  : Retry.settled Retry.axios_error json
    * (Z * list (Retry.settled Retry.axios_error json)) :=
  let called := Retry.mock (Retry.Rejected Retry.econnreset) w.2 in
  (called.1, ((w.1 + 40)%Z, called.2)).

Definition getMockWeatherData (city : string)
    (w : Z * list (Retry.settled Retry.axios_error json))
  : json * (Z * list (Retry.settled Retry.axios_error json)) :=
  (JStr (String.append "mock " city), ((w.1 + 1)%Z, w.2)).

(** Three minutes of TTL and three attempts, with and without an API
    key, and a configuration whose [maxRetryAttempts] is negative. *)
Definition with_key : Weather.config :=
  Weather.Config (Some "secret") 180000 3.

Definition without_key : Weather.config :=
  Weather.Config None 180000 3.

Definition negative_attempts : Weather.config :=
  Weather.Config (Some "secret") 180000 (-1).

(** The cache after [set("weather:london", "sunny", 180000)] at instant
    0. *)
Definition london_cached : gmap string (@Cache.cache_item json) :=
  Cache.set 0 "weather:london" (JStr "sunny") 180000 ∅.

End Demo.

(** * Properties of the cache *)

Section CacheProperties.

Import Cache.

Context {Value : Type}.
Variable null : Value.

Implicit Types (now : Z) (key : string) (item : @cache_item Value)
  (cache : gmap string (@cache_item Value)).

Lemma expired_true now item :
  expired now item = true <-> (expiresAt item < now)%Z.
Proof. unfold expired. rewrite Z.gtb_lt. reflexivity. Qed.

Lemma expired_false now item :
  expired now item = false <-> (now <= expiresAt item)%Z.
Proof.
  unfold expired. destruct (Z.gtb_spec now (expiresAt item)); split;
    intros; (lia || congruence).
Qed.

(** The loop of [cleanup], started from any store [acc]. *)
Lemma cleanup_fold_lookup now acc cache key :
  map_fold (cleanup_entry now) acc cache !! key =
  match cache !! key with
  | Some item => if expired now item then None else acc !! key
  | None => acc !! key
  end.
Proof.
  revert key.
  apply (map_fold_weak_ind (fun r m => forall key,
    r !! key = match m !! key with
               | Some item => if expired now item then None else acc !! key
               | None => acc !! key
               end)).
  - intros key. by rewrite lookup_empty.
  - intros i x m r Hi IH key. unfold cleanup_entry.
    destruct (decide (i = key)) as [->|Hne].
    + rewrite lookup_insert_eq. specialize (IH key). rewrite Hi in IH.
      destruct (expired now x); [by rewrite lookup_delete_eq | done].
    + rewrite lookup_insert_ne by done.
      destruct (expired now x); [rewrite lookup_delete_ne by done|]; apply IH.
Qed.

Lemma cleanup_lookup now cache key :
  cleanup now cache !! key =
  match cache !! key with
  | Some item => if expired now item then None else Some item
  | None => None
  end.
Proof.
  unfold cleanup. rewrite cleanup_fold_lookup.
  destruct (cache !! key) as [item|] eqn:Hk; [|done].
  by destruct (expired now item).
Qed.


(** The loop of [getStats] counts the two classes of entries. *)
Lemma count_fold_filter now cache :
  map_fold (count_entry now) (0, 0) cache =
  (size (filter (fun kv => expired now kv.2 = false) cache),
   size (filter (fun kv => expired now kv.2 = true) cache)).
Proof.
  apply (map_fold_weak_ind (fun r m =>
    r = (size (filter (fun kv => expired now kv.2 = false) m),
         size (filter (fun kv => expired now kv.2 = true) m)))).
  - by rewrite !map_filter_empty, map_size_empty.
  - intros i x m r Hi ->. unfold count_entry. simpl.
    rewrite !map_filter_insert. simpl. rewrite !delete_id by done.
    destruct (expired now x) eqn:Hx; repeat case_decide; try congruence;
      f_equal; rewrite map_size_insert_None; try done;
      apply map_lookup_filter_None; by left.
Qed.

Lemma count_fold_sum now cache :
  (map_fold (count_entry now) (0, 0) cache).1 +
  (map_fold (count_entry now) (0, 0) cache).2 = size cache.
Proof.
  apply (map_fold_weak_ind (fun r m => r.1 + r.2 = size m)).
  - by rewrite map_size_empty.
  - intros i x m r Hi IH. rewrite map_size_insert_None by done.
    unfold count_entry. destruct (expired now x); simpl; lia.
Qed.

Lemma count_fold_insert now key item cache :
  cache !! key = None ->
  map_fold (count_entry now) (0, 0) (<[key:=item]> cache) =
  count_entry now key item (map_fold (count_entry now) (0, 0) cache).
Proof.
  intros Hk. apply map_fold_insert_L; [|done].
  intros j1 j2 z1 z2 y _ _ _. unfold count_entry.
  by destruct (expired now z1), (expired now z2).
Qed.

Lemma set_as_insert now key (v : Value) ttlMs cache :
  set now key v ttlMs cache =
  <[key := CacheItem v (now + ttlMs)]> (delete key cache).
Proof. unfold set. by rewrite insert_delete_eq. Qed.

(** C1 (as amended): once the expiration instant has passed
    ([now > expiresAt]), [get] returns [null] and deletes the entry from the
    backing store; at the expiration instant itself ([now = expiresAt], and
    any earlier instant) the entry is still returned and the store is left
    as it is.  So an entry stored with [ttlMs = 0] is absent on every read
    strictly after its insertion instant, and is still returned by a read
    at the insertion instant. *)
Theorem get_expired_entry :
  (forall now key item cache,
     cache !! key = Some item -> (expiresAt item < now)%Z ->
     get null now key cache = (null, delete key cache) /\
     (get null now key cache).2 !! key = None) /\
  (forall now key item cache,
     cache !! key = Some item -> (now <= expiresAt item)%Z ->
     get null now key cache = (data item, cache)) /\
  (forall t0 now key v cache,
     (t0 < now)%Z ->
     get null now key (set t0 key v 0 cache) = (null, delete key cache)) /\
  (forall t0 key v cache,
     get null t0 key (set t0 key v 0 cache) = (v, set t0 key v 0 cache)).
Proof.
  assert (Hexp : forall now key item cache,
     cache !! key = Some item -> (expiresAt item < now)%Z ->
     get null now key cache = (null, delete key cache)).
  { intros now key item cache Hk Hlt. unfold get. rewrite Hk.
    apply expired_true in Hlt. by rewrite Hlt. }
  assert (Hval : forall now key item cache,
     cache !! key = Some item -> (now <= expiresAt item)%Z ->
     get null now key cache = (data item, cache)).
  { intros now key item cache Hk Hle. unfold get. rewrite Hk.
    apply expired_false in Hle. by rewrite Hle. }
  split; [|split; [|split]].
  - intros now key item cache Hk Hlt. rewrite (Hexp _ _ _ _ Hk Hlt).
    split; [done|]. simpl. apply lookup_delete_eq.
  - exact Hval.
  - intros t0 now key v cache Hlt.
    rewrite (Hexp now key (CacheItem v (t0 + 0)) (set t0 key v 0 cache)).
    + unfold set. by rewrite delete_insert_eq.
    + unfold set. apply lookup_insert_eq.
    + simpl. lia.
  - intros t0 key v cache.
    apply (Hval t0 key (CacheItem v (t0 + 0)) (set t0 key v 0 cache)).
    + unfold set. apply lookup_insert_eq.
    + simpl. lia.
Qed.

(** C6 (as amended): [getStats] counts every entry physically present in
    the store ([totalEntries] is the size of the map), classifies an entry
    as expired exactly when [now > expiresAt] and as valid otherwise
    ([now <= expiresAt], the expiration instant included), and
    [totalEntries = validEntries + expiredEntries]. *)
Theorem getStats_classification now cache :
  totalEntries (getStats now cache) = size cache /\
  validEntries (getStats now cache) =
    size (filter (fun kv => (now <= expiresAt kv.2)%Z) cache) /\
  expiredEntries (getStats now cache) =
    size (filter (fun kv => (expiresAt kv.2 < now)%Z) cache) /\
  totalEntries (getStats now cache) =
    validEntries (getStats now cache) + expiredEntries (getStats now cache).
Proof.
  unfold getStats. simpl. split; [done|].
  rewrite (count_fold_sum now cache). rewrite count_fold_filter. simpl.
  repeat split.
  - f_equal. apply map_filter_ext. intros i x _. simpl. apply expired_false.
  - f_equal. apply map_filter_ext. intros i x _. simpl. apply expired_true.
Qed.


(** C8: a [get] at the instant of a [set] with a positive TTL returns the
    value just stored and leaves the store alone; [set] binds the key to
    [{ data, expiresAt = now + ttlMs }] whatever was stored under it
    before, and touches no other key. *)
Theorem get_after_set now key (v : Value) ttlMs cache :
  (0 < ttlMs)%Z ->
  get null now key (set now key v ttlMs cache) =
    (v, set now key v ttlMs cache) /\
  set now key v ttlMs cache !! key = Some (CacheItem v (now + ttlMs)) /\
  (forall key', key' <> key ->
     set now key v ttlMs cache !! key' = cache !! key').
Proof.
  intros Ht.
  assert (Hk : set now key v ttlMs cache !! key
               = Some (CacheItem v (now + ttlMs))).
  { unfold set. apply lookup_insert_eq. }
  split; [|split; [done|]].
  - unfold get. rewrite Hk.
    assert (Hx : expired now (CacheItem v (now + ttlMs)) = false).
    { apply expired_false. simpl. lia. }
    by rewrite Hx.
  - intros key' Hne. unfold set. by apply lookup_insert_ne.
Qed.

(** C9: [set] performs no validation: for every [ttlMs], negative ones
    included, it stores [{ data, expiresAt = now + ttlMs }] under the key
    (the embedding of [set] has no failing case because the source has no
    [throw] and no check).  With a negative [ttlMs] the entry is expired at
    every instant from the insertion on: [get] returns [null] and deletes
    it, [getStats] counts it among the expired entries and not among the
    valid ones, and [cleanup] deletes it. *)
Theorem set_negative_ttl now key (v : Value) ttlMs cache :
  set now key v ttlMs cache !! key = Some (CacheItem v (now + ttlMs)) /\
  ((ttlMs < 0)%Z ->
   forall later, (now <= later)%Z ->
     get null later key (set now key v ttlMs cache) =
       (null, delete key cache) /\
     expiredEntries (getStats later (set now key v ttlMs cache)) =
       S (expiredEntries (getStats later (delete key cache))) /\
     validEntries (getStats later (set now key v ttlMs cache)) =
       validEntries (getStats later (delete key cache)) /\
     cleanup later (set now key v ttlMs cache) !! key = None).
Proof.
  assert (Hk : set now key v ttlMs cache !! key
               = Some (CacheItem v (now + ttlMs))).
  { unfold set. apply lookup_insert_eq. }
  split; [done|]. intros Hneg later Hlater.
  assert (Hx : expired later (CacheItem v (now + ttlMs)) = true).
  { apply expired_true. simpl. lia. }
  split; [|split; [|split]].
  - unfold get. rewrite Hk, Hx. unfold set. by rewrite delete_insert_eq.
  - unfold getStats. simpl. rewrite set_as_insert.
    rewrite count_fold_insert by apply lookup_delete_eq.
    unfold count_entry. by rewrite Hx.
  - unfold getStats. simpl. rewrite set_as_insert.
    rewrite count_fold_insert by apply lookup_delete_eq.
    unfold count_entry. by rewrite Hx.
  - by rewrite cleanup_lookup, Hk, Hx.
Qed.

End CacheProperties.

(** * Properties of the retry executor *)

Section ExecutorProperties.

Import Retry.

Context {E T W : Type}.
Variable fn : W -> settled E T * W.
Variables (maxAttempts baseDelay maxDelay : Z) (shouldRetry : E -> bool).

Implicit Types (attempt : Z) (lastError : option E) (w : W)
  (tr : list event).

(** When the loop condition fails the body is skipped and the trailing
    [throw lastError] runs. *)
Lemma attempts_exit fuel attempt lastError w tr :
  (maxAttempts < attempt)%Z ->
  attempts fn maxAttempts baseDelay maxDelay shouldRetry
    (S fuel) attempt lastError w tr
  = Some (Run (Rejected lastError) w tr).
Proof.
  intros Hgt. simpl.
  destruct (Z.leb_spec attempt maxAttempts) as [Hle|_]; [lia|done].
Qed.

Lemma nth_invocation_S w n :
  nth_invocation fn w (S (S n)) = nth_invocation fn (fn w).2 (S n).
Proof. reflexivity. Qed.

(** The loop entered with [attempt <= maxAttempts] and enough fuel: it
    retries [k] times, each time after a rejection the classifier accepts,
    and settles with the outcome of invocation [k + 1]. *)
Lemma attempts_spec fuel attempt lastError w tr :
  (attempt <= maxAttempts)%Z ->
  Z.to_nat (maxAttempts - attempt) < fuel ->
  exists k r,
    attempts fn maxAttempts baseDelay maxDelay shouldRetry
      fuel attempt lastError w tr = Some r /\
    (attempt + Z.of_nat k <= maxAttempts)%Z /\
    trace r = tr ++ schedule baseDelay maxDelay k attempt /\
    world r = world_after fn (S k) w /\
    (forall j, j < k ->
       exists e, nth_invocation fn w (S j) = Rejected e /\
                 shouldRetry e = true) /\
    match nth_invocation fn w (S k) with
    | Fulfilled v => outcome r = Fulfilled v
    | Rejected e =>
        outcome r = Rejected (Some e) /\
        ((attempt + Z.of_nat k)%Z = maxAttempts \/ shouldRetry e = false)
    end.
Proof.
  revert attempt lastError w tr.
  induction fuel as [|fuel IH]; intros attempt lastError w tr Hle Hfuel;
    [lia|].
  simpl. destruct (Z.leb_spec attempt maxAttempts) as [_|Hgt]; [|lia].
  destruct (fn w) as [o w'] eqn:Hfn.
  assert (Hw' : (fn w).2 = w') by (by rewrite Hfn).
  assert (Ho : nth_invocation fn w 1 = o).
  { unfold nth_invocation. simpl. by rewrite Hfn. }
  destruct o as [v|e].
  - exists 0, (Run (Fulfilled v) w' (tr ++ [Invoke attempt])).
    rewrite Ho. simpl.
    repeat split; [lia | intros j Hj; lia].
  - destruct ((attempt =? maxAttempts)%Z || negb (shouldRetry e)) eqn:Hstop.
    + exists 0, (Run (Rejected (Some e)) w' (tr ++ [Invoke attempt])).
      rewrite Ho. simpl.
      repeat split; [lia | intros j Hj; lia |].
      apply orb_true_iff in Hstop as [Hlast|Hno].
      * left. apply Z.eqb_eq in Hlast. lia.
      * right. by apply negb_true_iff in Hno.
    + apply orb_false_iff in Hstop as [Hnotlast Hyes].
      apply Z.eqb_neq in Hnotlast. apply negb_false_iff in Hyes.
      destruct (IH (attempt + 1)%Z (Some e) w'
                  (tr ++ [Invoke attempt;
                          Log attempt
                            (Z.min (baseDelay * 2 ^ (attempt - 1)) maxDelay);
                          Sleep
                            (Z.min (baseDelay * 2 ^ (attempt - 1)) maxDelay)]))
        as (k & r & Hrun & Hk & Htr & Hwd & Hpre & Hend); [lia | lia |].
      exists (S k), r. rewrite Hrun.
      split; [done|]. split; [lia|]. split.
      { rewrite Htr. simpl. by rewrite <- app_assoc. }
      split.
      { rewrite Hwd. simpl. by rewrite ?Hw'. }
      split.
      { intros [|j] Hj.
        - exists e. by rewrite Ho.
        - rewrite nth_invocation_S, ?Hw'. apply Hpre. lia. }
      rewrite nth_invocation_S, ?Hw'.
      destruct (nth_invocation fn w' (S k)) as [v|e']; [done|].
      destruct Hend as [Hout Hwhy]. split; [done|].
      destruct Hwhy as [Hlast|Hno]; [left; lia | by right].
Qed.

(** *** What a schedule contains *)

Lemma invocations_app tr1 tr2 :
  invocations (tr1 ++ tr2) = invocations tr1 + invocations tr2.
Proof.
  induction tr1 as [|ev tr1 IH]; [done|]. destruct ev; simpl; lia.
Qed.

Lemma invocations_schedule k a :
  invocations (schedule baseDelay maxDelay k a) = S k.
Proof.
  revert a. induction k as [|k IH]; intros a; [done|].
  simpl. by rewrite IH.
Qed.

Lemma sleeps_schedule k a :
  length (sleeps (schedule baseDelay maxDelay k a)) = k.
Proof.
  revert a. induction k as [|k IH]; intros a; [done|].
  simpl. by rewrite IH.
Qed.

Lemma last_schedule k a :
  last (schedule baseDelay maxDelay k a) = Some (Invoke (a + Z.of_nat k)).
Proof.
  revert a. induction k as [|k IH]; intros a.
  - simpl. do 2 f_equal. lia.
  - change (schedule baseDelay maxDelay (S k) a) with
      ([Invoke a;
        Log a (Z.min (baseDelay * 2 ^ (a - 1)) maxDelay);
        Sleep (Z.min (baseDelay * 2 ^ (a - 1)) maxDelay)]
       ++ schedule baseDelay maxDelay k (a + 1)).
    destruct (schedule baseDelay maxDelay k (a + 1)) as [|ev rest] eqn:Hs.
    { destruct k; discriminate. }
    rewrite last_app_cons. rewrite <- Hs, IH. do 2 f_equal. lia.
Qed.

Lemma schedule_head k a :
  exists rest, schedule baseDelay maxDelay k a = Invoke a :: rest.
Proof. destruct k; eexists; reflexivity. Qed.

Lemma delay_before_schedule k a i :
  (a < i <= a + Z.of_nat k)%Z ->
  delay_before i (schedule baseDelay maxDelay k a)
  = Some (Z.min (baseDelay * 2 ^ (i - 2)) maxDelay).
Proof.
  revert a. induction k as [|k IH]; intros a Hi; [lia|].
  simpl. destruct (schedule_head k (a + 1)) as [rest Hrest].
  rewrite Hrest. destruct (Z.eqb_spec (a + 1) i) as [<-|Hne].
  - by replace (a + 1 - 2)%Z with (a - 1)%Z by lia.
  - rewrite <- Hrest. apply IH. lia.
Qed.

End ExecutorProperties.

Section RetryProperties.

Import Retry.

Context {E T W : Type} `{ErrorShape E}.

Implicit Types (fn : W -> settled E T * W) (opts : options E) (w : W).

(** A run with [maxAttempts >= 1], in terms of the options as the
    destructuring resolves them. *)
Lemma retry_run fn opts w :
  (1 <= default 3%Z (maxAttempts opts))%Z ->
  exists k r,
    retryWithExponentialBackoff fn opts w = Some r /\
    (1 + Z.of_nat k <= default 3%Z (maxAttempts opts))%Z /\
    trace r = schedule (default 1000%Z (baseDelay opts))
                (default 10000%Z (maxDelay opts)) k 1 /\
    world r = world_after fn (S k) w /\
    (forall j, j < k ->
       exists e, nth_invocation fn w (S j) = Rejected e /\
                 default defaultShouldRetry (shouldRetry opts) e = true) /\
    match nth_invocation fn w (S k) with
    | Fulfilled v => outcome r = Fulfilled v
    | Rejected e =>
        outcome r = Rejected (Some e) /\
        ((1 + Z.of_nat k)%Z = default 3%Z (maxAttempts opts) \/
         default defaultShouldRetry (shouldRetry opts) e = false)
    end.
Proof.
  intros Hmax. unfold retryWithExponentialBackoff.
  apply (attempts_spec fn _ _ _ _ _ 1%Z None w []); lia.
Qed.

(** A run with [maxAttempts <= 0]: the loop body is never entered. *)
Lemma retry_skip fn opts w :
  (default 3%Z (maxAttempts opts) <= 0)%Z ->
  retryWithExponentialBackoff fn opts w = Some (Run (Rejected None) w []).
Proof.
  intros Hmax. unfold retryWithExponentialBackoff.
  apply attempts_exit. lia.
Qed.

(** The fuel given by [retryWithExponentialBackoff] always suffices: every
    run settles. *)
Lemma retry_total fn opts w :
  exists r, retryWithExponentialBackoff fn opts w = Some r.
Proof.
  destruct (Z_le_gt_dec 1 (default 3%Z (maxAttempts opts))) as [Hge|Hlt].
  - destruct (retry_run fn opts w Hge) as (k & r & Hr & _). by exists r.
  - eexists. apply retry_skip. lia.
Qed.

(** C2: with [maxAttempts = N >= 1] and an operation whose first [N]
    invocations all reject with an error the classifier accepts, the run
    settles, the operation is invoked exactly [N] times, and the promise
    rejects with the error of the [N]-th invocation. *)
Theorem exhausted_retries fn opts w (N : nat) :
  1 <= N ->
  maxAttempts opts = Some (Z.of_nat N) ->
  (forall i, 1 <= i <= N ->
     exists e, nth_invocation fn w i = Rejected e /\
               default defaultShouldRetry (shouldRetry opts) e = true) ->
  exists r eN,
    retryWithExponentialBackoff fn opts w = Some r /\
    nth_invocation fn w N = Rejected eN /\
    outcome r = Rejected (Some eN) /\
    invocations (trace r) = N.
Proof.
  intros HN Hopt Hfail.
  destruct (retry_run fn opts w) as (k & r & Hr & Hk & Htr & _ & _ & Hend).
  { rewrite Hopt. simpl. lia. }
  rewrite Hopt in Hk, Hend. simpl in Hk, Hend.
  destruct (Hfail (S k)) as (e & He & Hretry); [lia|].
  rewrite He in Hend. destruct Hend as [Hout [Hlast|Hno]]; [|congruence].
  assert (HkN : S k = N) by lia.
  exists r, e. rewrite <- HkN.
  split; [done|]. split; [done|]. split; [done|].
  rewrite Htr. apply invocations_schedule.
Qed.

(** C3: in every run, the sleep that immediately precedes attempt [i]
    ([i >= 2], for every attempt the run makes) lasts
    [min (baseDelay * 2^(i-2)) maxDelay], the exponential term being
    computed first and clamped afterwards; there are no other sleeps (one
    fewer than invocations).  On success of any attempt the result is
    returned immediately: whichever invocation of the run fulfils, it is
    the last invocation and the last effect of the run (no log line, no
    sleep and no further invocation follows it), the promise fulfils with
    its value, and the world is the one it left.  Conversely a promise
    that fulfils does so with the value of the last invocation. *)
Theorem backoff_delays fn opts w :
  exists r,
    retryWithExponentialBackoff fn opts w = Some r /\
    (forall i, (2 <= i <= Z.of_nat (invocations (trace r)))%Z ->
       delay_before i (trace r) =
       Some (Z.min (default 1000%Z (baseDelay opts) * 2 ^ (i - 2))
               (default 10000%Z (maxDelay opts)))) /\
    length (sleeps (trace r)) = pred (invocations (trace r)) /\
    (forall i v, 1 <= i <= invocations (trace r) ->
       nth_invocation fn w i = Fulfilled v ->
       i = invocations (trace r) /\
       outcome r = Fulfilled v /\
       world r = world_after fn i w /\
       last (trace r) = Some (Invoke (Z.of_nat i))) /\
    (forall v, outcome r = Fulfilled v ->
       nth_invocation fn w (invocations (trace r)) = Fulfilled v /\
       last (trace r) = Some (Invoke (Z.of_nat (invocations (trace r))))).
Proof.
  destruct (Z_le_gt_dec 1 (default 3%Z (maxAttempts opts))) as [Hge|Hlt].
  - destruct (retry_run fn opts w Hge)
      as (k & r & Hr & Hk & Htr & Hwd & Hpre & Hend).
    exists r. split; [done|]. rewrite Htr, invocations_schedule.
    split; [|split; [|split]].
    + intros i Hi. apply delay_before_schedule. lia.
    + by rewrite sleeps_schedule.
    + intros i v Hi Hok.
      assert (Hlast : i = S k).
      { destruct (decide (i = S k)) as [|Hne]; [done|].
        destruct i as [|j]; [lia|].
        destruct (Hpre j) as (e & He & _); [lia|]. congruence. }
      subst i. rewrite Hok in Hend.
      split; [done|]. split; [done|]. split; [done|].
      rewrite last_schedule. do 2 f_equal. lia.
    + intros v Hv. split.
      * destruct (nth_invocation fn w (S k)) as [v'|e]; [congruence|].
        destruct Hend as [Hout _]. congruence.
      * rewrite last_schedule. do 2 f_equal. lia.
  - exists (Run (Rejected None) w []). split; [apply retry_skip; lia|].
    simpl. split; [intros i Hi; lia|]. split; [done|].
    split; [intros i v Hi; lia|]. intros v [=].
Qed.

(** C4: when the first invocation rejects with an error the classifier
    refuses, the operation is invoked exactly once, nothing is slept, and
    the promise rejects with that very error, whatever [maxAttempts >= 1]
    is. *)
Theorem non_retryable_once fn opts w (e : E) :
  (1 <= default 3%Z (maxAttempts opts))%Z ->
  nth_invocation fn w 1 = Rejected e ->
  default defaultShouldRetry (shouldRetry opts) e = false ->
  exists r,
    retryWithExponentialBackoff fn opts w = Some r /\
    outcome r = Rejected (Some e) /\
    invocations (trace r) = 1 /\
    trace r = [Invoke 1].
Proof.
  intros Hmax Hfirst Hno.
  destruct (retry_run fn opts w Hmax)
    as (k & r & Hr & Hk & Htr & _ & Hpre & Hend).
  destruct k as [|k].
  - rewrite Hfirst in Hend. destruct Hend as [Hout _].
    exists r. rewrite Htr. by repeat split.
  - destruct (Hpre 0) as (e' & He' & Hyes); [lia|]. congruence.
Qed.

(** C5: the default classifier answers [true] exactly when the error
    carries a status [>= 500], or the code [ECONNABORTED] (timeout), or
    one of the codes [ENOTFOUND], [ECONNRESET] (name resolution, connection
    reset).  Hence a 4xx status never makes an error retryable: a client
    error, carrying none of the three codes, gets [false], and so does
    every error that has neither such a status nor such a code. *)
Theorem default_classifier (error : E) :
  (defaultShouldRetry error = true <->
     (exists s, response_status error = Some s /\ (500 <= s)%Z) \/
     code error = Some "ECONNABORTED" \/
     code error = Some "ENOTFOUND" \/
     code error = Some "ECONNRESET") /\
  (forall s, response_status error = Some s -> (400 <= s < 500)%Z ->
     code error <> Some "ECONNABORTED" ->
     code error <> Some "ENOTFOUND" ->
     code error <> Some "ECONNRESET" ->
     defaultShouldRetry error = false) /\
  ((forall s, response_status error = Some s -> (s < 500)%Z) ->
     code error <> Some "ECONNABORTED" ->
     code error <> Some "ENOTFOUND" ->
     code error <> Some "ECONNRESET" ->
     defaultShouldRetry error = false).
Proof.
  assert (Hge : number_ge (response_status error) 500 = true <->
                exists s, response_status error = Some s /\ (500 <= s)%Z).
  { unfold number_ge. destruct (response_status error) as [s|].
    - rewrite Z.geb_le. split; [intros Hs; by exists s|].
      by intros (s' & [= <-] & Hs).
    - split; [done|]. by intros (s' & [=] & _). }
  assert (Heq : forall c, strict_eq (code error) c = true <->
                          code error = Some c).
  { intros c. unfold strict_eq. destruct (code error) as [c'|].
    - rewrite String.eqb_eq. split; [by intros ->|by intros [= ->]].
    - split; intros; discriminate. }
  assert (Hiff : defaultShouldRetry error = true <->
     (exists s, response_status error = Some s /\ (500 <= s)%Z) \/
     code error = Some "ECONNABORTED" \/
     code error = Some "ENOTFOUND" \/
     code error = Some "ECONNRESET").
  { unfold defaultShouldRetry. rewrite !orb_true_iff, Hge, !Heq. tauto. }
  split; [exact Hiff|]. split.
  - intros s Hs Hrange H1 H2 H3. apply not_true_is_false. intros Htrue.
    apply Hiff in Htrue as [(s' & Hs' & Hbig)|[?|[?|?]]]; try done.
    rewrite Hs in Hs'. injection Hs' as <-. lia.
  - intros Hlow H1 H2 H3. apply not_true_is_false. intros Htrue.
    apply Hiff in Htrue as [(s' & Hs' & Hbig)|[?|[?|?]]]; try done.
    specialize (Hlow s' Hs'). lia.
Qed.

(** C10: with [maxAttempts <= 0] the loop body never runs: the operation
    is not invoked (the trace is empty and the world untouched) and the
    trailing [throw lastError] rejects the promise with [undefined], the
    value of the never assigned [lastError]. *)
Theorem no_attempts fn opts w (n : Z) :
  maxAttempts opts = Some n ->
  (n <= 0)%Z ->
  retryWithExponentialBackoff fn opts w = Some (Run (Rejected None) w []) /\
  (forall r, retryWithExponentialBackoff fn opts w = Some r ->
     invocations (trace r) = 0 /\ outcome r = Rejected None).
Proof.
  intros Hopt Hn.
  assert (Hrun : retryWithExponentialBackoff fn opts w
                 = Some (Run (Rejected None) w [])).
  { apply retry_skip. by rewrite Hopt. }
  split; [done|]. intros r Hr. rewrite Hrun in Hr. by injection Hr as <-.
Qed.

End RetryProperties.

(** * The properties at concrete inputs *)

Section CacheExamples.

Import Cache.

(** A miss on an unknown key returns [null] and changes nothing. *)
Example get_unknown_key :
  get JNull 0 "non-existent" ∅ = (JNull, ∅).
Proof. reflexivity. Qed.

(** C1 as stated fails at the expiration instant: the entry stored with
    [ttlMs = 0] at instant 100 has [expiresAt = 100], so at [now = 100] its
    expiration instant has been reached ([now >= expiresAt]); yet [get]
    returns its value, not [null], and the entry stays in the store. *)
Lemma get_at_expiration_instant :
  london_ttl0 !! "weather:london" = Some (CacheItem (JStr "sunny") 100) /\
  (100 >= expiresAt (CacheItem (JStr "sunny") 100))%Z /\
  get JNull 100 "weather:london" london_ttl0 = (JStr "sunny", london_ttl0) /\
  (get JNull 100 "weather:london" london_ttl0).1 <> JNull /\
  (get JNull 100 "weather:london" london_ttl0).2 !! "weather:london" <> None.
Proof.
  assert (Hget : get JNull 100 "weather:london" london_ttl0
                 = (JStr "sunny", london_ttl0)) by (by vm_compute).
  split; [by vm_compute|]. split; [simpl; lia|]. split; [exact Hget|].
  rewrite Hget. simpl. split; [discriminate|]. by vm_compute.
Qed.

Lemma get_expired_entry_witness :
  (get JNull 101 "weather:london" london_ttl0
     = (JNull, delete "weather:london" london_ttl0) /\
   (get JNull 101 "weather:london" london_ttl0).2 !! "weather:london"
     = None) /\
  get JNull 101 "weather:london" (set 100 "weather:london" (JStr "sunny") 0 ∅)
    = (JNull, delete "weather:london" ∅).
Proof.
  split.
  - apply (proj1 (get_expired_entry JNull) 101%Z "weather:london"
             (CacheItem (JStr "sunny") 100) london_ttl0).
    + vm_compute. reflexivity.
    + simpl. lia.
  - apply (proj1 (proj2 (proj2 (get_expired_entry JNull)))). lia.
Defined.

(** C6 as stated fails at the expiration instant: at [now = 100] the entry
    with [expiresAt = 100] is not valid by the invariant [now < expiresAt],
    but [getStats] counts it as valid and not as expired. *)
Lemma getStats_at_expiration_instant :
  london_ttl0 !! "weather:london" = Some (CacheItem (JStr "sunny") 100) /\
  ~ spec_valid 100 (CacheItem (JStr "sunny") 100) /\
  getStats 100 london_ttl0 = Stats 1 1 0 /\
  validEntries (getStats 100 london_ttl0)
    <> size (filter (fun kv => spec_valid 100 kv.2) london_ttl0).
Proof.
  split; [by vm_compute|]. split; [unfold spec_valid; simpl; lia|].
  split; [by vm_compute|]. by vm_compute.
Qed.


Lemma get_after_set_witness :
  get JNull 100 "london" (set 100 "london" (JStr "London 15") 60000 ∅)
    = (JStr "London 15", set 100 "london" (JStr "London 15") 60000 ∅) /\
  set 100 "london" (JStr "London 15") 60000 ∅ !! "london"
    = Some (CacheItem (JStr "London 15") (100 + 60000)) /\
  (forall key', key' <> "london" ->
     set 100 "london" (JStr "London 15") 60000 ∅ !! key'
     = (∅ : gmap string (@cache_item json)) !! key').
Proof.
  apply (get_after_set JNull 100 "london" (JStr "London 15") 60000 ∅). lia.
Defined.

Lemma set_negative_ttl_witness :
  get JNull 100 "temp" (set 100 "temp" (JNum 7) (-5) two_cities)
    = (JNull, delete "temp" two_cities) /\
  expiredEntries (getStats 100 (set 100 "temp" (JNum 7) (-5) two_cities))
    = S (expiredEntries (getStats 100 (delete "temp" two_cities))) /\
  validEntries (getStats 100 (set 100 "temp" (JNum 7) (-5) two_cities))
    = validEntries (getStats 100 (delete "temp" two_cities)) /\
  cleanup 100 (set 100 "temp" (JNum 7) (-5) two_cities) !! "temp" = None.
Proof.
  apply (proj2 (set_negative_ttl JNull 100 "temp" (JNum 7) (-5) two_cities));
    lia.
Defined.

(** The cache tests of the repository, at explicit instants. *)
Example stats_after_expiration :
  getStats 110 (set 100 "city2" (JStr "test2") 1
                  (set 100 "city1" (JStr "test1") 60000 ∅))
  = Stats 2 1 1.
Proof. by vm_compute. Qed.

End CacheExamples.

Section RetryExamples.

Import Retry.

Lemma exhausted_retries_witness :
  exists r eN,
    retryWithExponentialBackoff always_5xx
      (Options (Some 3%Z) (Some 10%Z) None None) 0 = Some r /\
    nth_invocation always_5xx 0 3 = Rejected eN /\
    outcome r = Rejected (Some eN) /\
    invocations (trace r) = 3.
Proof.
  apply (exhausted_retries always_5xx
           (Options (Some 3%Z) (Some 10%Z) None None) 0 3).
  - lia.
  - reflexivity.
  - intros i Hi.
    destruct i as [|[|[|[|i]]]]; try lia; eexists; split; reflexivity.
Defined.

(** The error that surfaces is the one of the third invocation (status
    502), not the one of the first (status 500). *)
Example last_error_surfaces :
  retryWithExponentialBackoff always_5xx
    (Options (Some 3%Z) (Some 10%Z) None None) 0
  = Some (Run (Rejected (Some (AxiosError "server error" (Some 502%Z) None)))
            3
            [Invoke 1; Log 1 10; Sleep 10; Invoke 2; Log 2 20; Sleep 20;
             Invoke 3]).
Proof. by vm_compute. Qed.

Lemma backoff_delays_witness :
  exists r,
    retryWithExponentialBackoff (mock (Fulfilled "success"))
      (Options (Some 3%Z) (Some 1000%Z) (Some 100%Z) None)
      [Rejected econnreset; Rejected econnreset] = Some r /\
    outcome r = Fulfilled "success" /\
    delay_before 2 (trace r) = Some 100%Z /\
    delay_before 3 (trace r) = Some 100%Z /\
    (3 = invocations (trace r) /\
     outcome r = Fulfilled "success" /\
     world r = world_after (mock (Fulfilled "success")) 3
                 [Rejected econnreset; Rejected econnreset] /\
     last (trace r) = Some (Invoke 3)) /\
    last (trace r) = Some (Invoke 3).
Proof.
  destruct (backoff_delays (mock (Fulfilled "success"))
              (Options (Some 3%Z) (Some 1000%Z) (Some 100%Z) None)
              [Rejected econnreset; Rejected econnreset])
    as (r & Hr & Hdelay & _ & Hnow & Hdone).
  exists r. split; [exact Hr|].
  vm_compute in Hr. injection Hr as <-.
  split; [reflexivity|].
  split; [exact (Hdelay 2%Z ltac:(simpl; lia))|].
  split; [exact (Hdelay 3%Z ltac:(simpl; lia))|].
  split; [exact (Hnow 3 "success" ltac:(simpl; lia) eq_refl)|].
  exact (proj2 (Hdone "success" eq_refl)).
Defined.

(** Growth before the clamp takes effect: 50 ms, then 100 ms. *)
Example backoff_doubles :
  retryWithExponentialBackoff (mock (Fulfilled "success"))
    (Options (Some 3%Z) (Some 50%Z) (Some 200%Z) None)
    [Rejected econnreset; Rejected econnreset]
  = Some (Run (Fulfilled "success") []
            [Invoke 1; Log 1 50; Sleep 50; Invoke 2; Log 2 100; Sleep 100;
             Invoke 3]).
Proof. by vm_compute. Qed.

Lemma non_retryable_once_witness :
  exists r,
    retryWithExponentialBackoff (mock (T := string) (Rejected bad_request))
      (Options (Some 3%Z) (Some 10%Z) None None) [] = Some r /\
    outcome r = Rejected (Some bad_request) /\
    invocations (trace r) = 1 /\
    trace r = [Invoke 1].
Proof.
  apply (non_retryable_once (mock (T := string) (Rejected bad_request))
           (Options (Some 3%Z) (Some 10%Z) None None) [] bad_request).
  - simpl. lia.
  - reflexivity.
  - reflexivity.
Defined.

Lemma default_classifier_witness :
  defaultShouldRetry econnreset = true /\
  defaultShouldRetry bad_request = false /\
  defaultShouldRetry (AxiosError "Client error" None None) = false.
Proof.
  split; [|split].
  - apply (proj1 (default_classifier econnreset)).
    right. right. right. reflexivity.
  - apply (proj1 (proj2 (default_classifier bad_request)) 400%Z).
    + reflexivity.
    + lia.
    + discriminate.
    + discriminate.
    + discriminate.
  - apply (proj2 (proj2 (default_classifier
                           (AxiosError "Client error" None None)))).
    + intros s Hs. discriminate Hs.
    + discriminate.
    + discriminate.
    + discriminate.
Defined.

Lemma no_attempts_witness :
  retryWithExponentialBackoff always_5xx
    (Options (Some 0%Z) None None None) 0
  = Some (Run (Rejected None) 0 []).
Proof.
  apply (proj1 (no_attempts always_5xx (Options (Some 0%Z) None None None)
                  0 0%Z eq_refl ltac:(lia))).
Defined.

(** The retry tests of the repository. *)
Example fail_after_max_attempts :
  retryWithExponentialBackoff (mock (T := string) (Rejected econnreset))
    (Options (Some 2%Z) (Some 10%Z) None None) []
  = Some (Run (Rejected (Some econnreset)) []
            [Invoke 1; Log 1 10; Sleep 10; Invoke 2]).
Proof. by vm_compute. Qed.

Example default_options_apply :
  retryWithExponentialBackoff (mock (T := string) (Rejected econnreset))
    no_options []
  = Some (Run (Rejected (Some econnreset)) []
            [Invoke 1; Log 1 1000; Sleep 1000; Invoke 2; Log 2 2000;
             Sleep 2000; Invoke 3]).
Proof. by vm_compute. Qed.

End RetryExamples.

(** * Further properties of the cache *)

Section CacheFurther.

Import Cache.

Context {Value : Type}.
Variable null : Value.

Implicit Types (now later : Z) (key : string) (item : @cache_item Value)
  (cache : gmap string (@cache_item Value)).

Lemma expired_later now later item :
  (now <= later)%Z -> expired now item = true -> expired later item = true.
Proof. rewrite !expired_true. lia. Qed.

Lemma cleanup_delete now key cache :
  cleanup now (base.delete key cache) = base.delete key (cleanup now cache).
Proof.
  apply map_eq. intros k. rewrite cleanup_lookup.
  destruct (decide (k = key)) as [->|Hne].
  - by rewrite !lookup_delete_eq.
  - rewrite !lookup_delete_ne by done. by rewrite cleanup_lookup.
Qed.

Lemma get_store_subseteq now key cache :
  (get null now key cache).2 ⊆ cache.
Proof.
  unfold get. destruct (cache !! key) as [item|]; [|done].
  destruct (expired now item); simpl; [apply delete_subseteq|done].
Qed.

(** X1: after [delete(key)] a [get] of that key returns [null] and finds
    nothing to remove; deleting a key that is not stored changes nothing,
    deleting twice is deleting once, and no other key is affected. *)
Theorem delete_then_get now key cache :
  get null now key (CacheService.delete key cache)
    = (null, CacheService.delete key cache) /\
  (cache !! key = None -> CacheService.delete key cache = cache) /\
  CacheService.delete key (CacheService.delete key cache)
    = CacheService.delete key cache /\
  (forall key', key' <> key ->
     CacheService.delete key cache !! key' = cache !! key').
Proof.
  unfold CacheService.delete. split; [|split; [|split]].
  - unfold get. by rewrite lookup_delete_eq.
  - apply delete_id.
  - apply delete_id, lookup_delete_eq.
  - intros key' Hne. by apply lookup_delete_ne.
Qed.

(** X2: after [clear()], whatever the cache held, [getStats] reports
    [{0, 0, 0}] and every [get] is a miss. *)
Theorem clear_then_stats now cache :
  getStats now (CacheService.clear cache) = Stats 0 0 0 /\
  (forall key, get null now key (CacheService.clear cache)
               = (null, CacheService.clear cache)).
Proof.
  unfold CacheService.clear. split.
  - unfold getStats. by rewrite map_fold_empty, map_size_empty.
  - intros key. unfold get. by rewrite lookup_empty.
Qed.

(** X3: a later [set] on the same key replaces the earlier entry whole,
    value and expiration instant (nothing of the first call survives), and
    a [set] grows the store by one entry only when the key was not stored
    (expired leftovers included). *)
Theorem set_overwrites now1 now2 key (v1 v2 : Value) ttl1 ttl2 cache :
  set now2 key v2 ttl2 (set now1 key v1 ttl1 cache)
    = set now2 key v2 ttl2 cache /\
  totalEntries (getStats now2 (set now2 key v2 ttl2 cache))
    = match cache !! key with
      | Some _ => totalEntries (getStats now2 cache)
      | None => S (totalEntries (getStats now2 cache))
      end.
Proof.
  split.
  - unfold set. apply insert_insert_eq.
  - unfold getStats, set. simpl. rewrite map_size_insert.
    by destruct (cache !! key).
Qed.

(** X4: [get] touches no key but its own, never adds an entry, and is
    stable: a second [get] of the same key at the same instant returns the
    same value and the same store as the first. *)
Theorem get_frame now key cache :
  (forall key', key' <> key ->
     (get null now key cache).2 !! key' = cache !! key') /\
  (get null now key cache).2 ⊆ cache /\
  get null now key (get null now key cache).2 = get null now key cache.
Proof.
  split; [|split; [apply get_store_subseteq|]]; unfold get;
    destruct (cache !! key) as [item|] eqn:Hk.
  - destruct (expired now item); simpl; [|done].
    intros key' Hne. by apply lookup_delete_ne.
  - done.
  - destruct (expired now item) eqn:Hx; simpl.
    + by rewrite lookup_delete_eq.
    + by rewrite Hk, Hx.
  - simpl. by rewrite Hk.
Qed.

(** X5: [get] never hands out stale data: a result other than [null] is
    the [data] of the entry stored under the key, and that entry has not
    expired ([now <= expiresAt]); the store is then left as it was. *)
Theorem get_never_stale now key cache (v : Value) :
  (get null now key cache).1 = v ->
  v <> null ->
  exists item,
    cache !! key = Some item /\ data item = v /\
    (now <= expiresAt item)%Z /\
    (get null now key cache).2 = cache.
Proof.
  unfold get. destruct (cache !! key) as [item|]; [|simpl; congruence].
  destruct (expired now item) eqn:Hx; simpl; [congruence|].
  intros Hv _. exists item. by rewrite <- expired_false.
Qed.

(** X6: a [cleanup] run at an earlier instant is invisible to [get]:
    with or without it, [get] returns the same value, and the stores
    differ only by what [cleanup] removed. *)
Theorem cleanup_invisible_to_get now later key cache :
  (now <= later)%Z ->
  (get null later key (cleanup now cache)).1 = (get null later key cache).1 /\
  (get null later key (cleanup now cache)).2
    = cleanup now (get null later key cache).2.
Proof.
  intros Hle. unfold get. rewrite cleanup_lookup.
  destruct (cache !! key) as [item|] eqn:Hk; [|done].
  destruct (expired now item) eqn:Hx.
  - rewrite (expired_later now later item Hle Hx). simpl.
    split; [done|]. rewrite cleanup_delete. symmetry. apply delete_id.
    by rewrite cleanup_lookup, Hk, Hx.
  - destruct (expired later item); simpl; [|done].
    split; [done|]. by rewrite cleanup_delete.
Qed.

(** X7: a [cleanup] at a later instant subsumes one at an earlier instant,
    in either order of the two runs. *)
Theorem cleanup_later_subsumes now later cache :
  (now <= later)%Z ->
  cleanup later (cleanup now cache) = cleanup later cache /\
  cleanup now (cleanup later cache) = cleanup later cache.
Proof.
  intros Hle. split; apply map_eq; intros key; rewrite !cleanup_lookup;
    destruct (cache !! key) as [item|]; try done.
  - destruct (expired now item) eqn:Hx.
    + by rewrite (expired_later now later item Hle Hx).
    + done.
  - destruct (expired later item) eqn:Hl; [done|].
    destruct (expired now item) eqn:Hx; [|done].
    rewrite (expired_later now later item Hle Hx) in Hl. discriminate.
Qed.

(** X8: as time passes and the store is left alone, entries only move
    from valid to expired: [validEntries] cannot grow, [expiredEntries]
    cannot shrink, and [totalEntries] stays the same. *)
Theorem stats_over_time now later cache :
  (now <= later)%Z ->
  validEntries (getStats later cache) <= validEntries (getStats now cache) /\
  expiredEntries (getStats now cache) <= expiredEntries (getStats later cache) /\
  totalEntries (getStats later cache) = totalEntries (getStats now cache).
Proof.
  intros Hle.
  assert (Hv : validEntries (getStats later cache)
               <= validEntries (getStats now cache)).
  { unfold getStats. simpl. rewrite !count_fold_filter. simpl.
    apply map_subseteq_size, map_filter_subseteq_ext.
    intros i x _. simpl. rewrite !expired_false. lia. }
  pose proof (count_fold_sum now cache) as Hnow.
  pose proof (count_fold_sum later cache) as Hlater.
  unfold getStats in *. simpl in *. lia.
Qed.

(** X23: an entry stored by [set] at instant [now] with [ttlMs] is read
    back by [get] at every instant up to and including [now + ttlMs], the
    store being left alone, and at every later instant [get] returns [null]
    and deletes it. *)
Theorem ttl_window now later key (v : Value) ttlMs cache :
  ((later <= now + ttlMs)%Z ->
   get null later key (set now key v ttlMs cache)
   = (v, set now key v ttlMs cache)) /\
  ((now + ttlMs < later)%Z ->
   get null later key (set now key v ttlMs cache)
   = (null, base.delete key cache)).
Proof.
  unfold get, set. rewrite lookup_insert_eq. split; intros Hcmp.
  - assert (Hx : expired later (CacheItem v (now + ttlMs)) = false)
      by (by apply expired_false).
    by rewrite Hx.
  - assert (Hx : expired later (CacheItem v (now + ttlMs)) = true)
      by (by apply expired_true).
    by rewrite Hx, delete_insert_eq.
Qed.

End CacheFurther.

(** * Further properties of the retry executor *)

Section ScheduleBounds.

Import Retry.

Variables (baseDelay maxDelay : Z).

Lemma sleeps_schedule_le k a :
  Forall (fun ms => (ms <= maxDelay)%Z)
    (sleeps (schedule baseDelay maxDelay k a)).
Proof.
  revert a. induction k as [|k IH]; intros a; simpl; [constructor|].
  constructor; [lia | apply IH].
Qed.

Lemma sleeps_schedule_nonneg k a :
  (0 <= baseDelay)%Z -> (0 <= maxDelay)%Z ->
  Forall (fun ms => (0 <= ms)%Z) (sleeps (schedule baseDelay maxDelay k a)).
Proof.
  intros Hb Hm. revert a. induction k as [|k IH]; intros a; simpl;
    [constructor|].
  constructor; [|apply IH].
  assert (0 <= 2 ^ (a - 1))%Z by (apply Z.pow_nonneg; lia). nia.
Qed.

Lemma sum_bounded (l : list Z) (b : Z) :
  Forall (fun ms => (ms <= b)%Z) l ->
  (foldr Z.add 0 l <= Z.of_nat (length l) * b)%Z.
Proof.
  induction 1 as [|x l Hx _ IH]; simpl; [lia|]. nia.
Qed.

End ScheduleBounds.

Section RetryFurther.

Import Retry.

Context {E T W : Type} `{ErrorShape E}.

Implicit Types (fn : W -> settled E T * W) (opts : options E) (w : W).

(** X9: when the first [k] invocations reject with errors the classifier
    accepts and invocation [k + 1] fulfils with [v], and [maxAttempts]
    allows [k + 1] attempts, the promise fulfils with [v] after exactly
    [k + 1] invocations and [k] sleeps. *)
Theorem retry_until_success fn opts w (k : nat) (v : T) :
  (Z.of_nat (S k) <= default 3%Z (maxAttempts opts))%Z ->
  (forall j, 1 <= j <= k ->
     exists e, nth_invocation fn w j = Rejected e /\
               default defaultShouldRetry (shouldRetry opts) e = true) ->
  nth_invocation fn w (S k) = Fulfilled v ->
  exists r,
    retryWithExponentialBackoff fn opts w = Some r /\
    outcome r = Fulfilled v /\
    invocations (trace r) = S k /\
    length (sleeps (trace r)) = k /\
    world r = world_after fn (S k) w.
Proof.
  intros Hmax Hfail Hok.
  destruct (retry_run fn opts w)
    as (k' & r & Hr & Hk' & Htr & Hwd & Hpre & Hend); [lia|].
  assert (Heq : k' = k).
  { destruct (lt_eq_lt_dec k' k) as [[Hlt|Heq]|Hgt]; [|done|].
    - destruct (Hfail (S k')) as (e & He & Hyes); [lia|].
      rewrite He in Hend. destruct Hend as [_ [Hlast|Hno]];
        [lia|congruence].
    - destruct (Hpre k Hgt) as (e & He & _). congruence. }
  subst k'. rewrite Hok in Hend. exists r.
  rewrite Htr, invocations_schedule, sleeps_schedule. by repeat split.
Qed.

(** X10: the operation is never invoked more than [maxAttempts] times (not
    at all when [maxAttempts <= 0]), and at least once when
    [maxAttempts >= 1]; with [maxAttempts = 1] it is invoked once and
    nothing else happens, whatever the classifier would say. *)
Theorem invocations_bounded fn opts w :
  exists r,
    retryWithExponentialBackoff fn opts w = Some r /\
    (Z.of_nat (invocations (trace r))
       <= Z.max 0 (default 3%Z (maxAttempts opts)))%Z /\
    ((1 <= default 3%Z (maxAttempts opts))%Z ->
       1 <= invocations (trace r)) /\
    (default 3%Z (maxAttempts opts) = 1%Z -> trace r = [Invoke 1]).
Proof.
  destruct (Z_le_gt_dec 1 (default 3%Z (maxAttempts opts))) as [Hge|Hlt].
  - destruct (retry_run fn opts w Hge) as (k & r & Hr & Hk & Htr & _).
    exists r. rewrite Htr, invocations_schedule.
    split; [done|]. split; [lia|]. split; [lia|].
    intros Hone. assert (k = 0) as -> by lia. reflexivity.
  - exists (Run (Rejected None) w []).
    split; [apply retry_skip; lia|]. simpl. split; [lia|]. split; lia.
Qed.

(** X11: with [maxAttempts >= 1] the promise settles as the last
    invocation did: it fulfils with that invocation's value or rejects
    with that invocation's error, unchanged; and the world the run leaves
    is the one left by its invocations, made one after the other. *)
Theorem outcome_of_last_invocation fn opts w :
  (1 <= default 3%Z (maxAttempts opts))%Z ->
  exists r,
    retryWithExponentialBackoff fn opts w = Some r /\
    world r = world_after fn (invocations (trace r)) w /\
    outcome r =
      match nth_invocation fn w (invocations (trace r)) with
      | Fulfilled v => Fulfilled v
      | Rejected e => Rejected (Some e)
      end.
Proof.
  intros Hmax.
  destruct (retry_run fn opts w Hmax)
    as (k & r & Hr & _ & Htr & Hwd & _ & Hend).
  exists r. rewrite Htr, invocations_schedule.
  split; [done|]. split; [done|].
  destruct (nth_invocation fn w (S k)) as [v|e]; [done|]. by destruct Hend.
Qed.

(** X12: no sleep is longer than [maxDelay]; with non-negative [baseDelay]
    and [maxDelay] no sleep is negative; and with [maxDelay >= 0] a run
    sleeps at most [(maxAttempts - 1) * maxDelay] in total. *)
Theorem sleeps_bounded fn opts w :
  exists r,
    retryWithExponentialBackoff fn opts w = Some r /\
    Forall (fun ms => (ms <= default 10000%Z (maxDelay opts))%Z)
      (sleeps (trace r)) /\
    ((0 <= default 1000%Z (baseDelay opts))%Z ->
     (0 <= default 10000%Z (maxDelay opts))%Z ->
     Forall (fun ms => (0 <= ms)%Z) (sleeps (trace r))) /\
    ((0 <= default 10000%Z (maxDelay opts))%Z ->
     (foldr Z.add 0 (sleeps (trace r))
        <= Z.max 0 (default 3%Z (maxAttempts opts) - 1)
           * default 10000%Z (maxDelay opts))%Z).
Proof.
  destruct (Z_le_gt_dec 1 (default 3%Z (maxAttempts opts))) as [Hge|Hlt].
  - destruct (retry_run fn opts w Hge) as (k & r & Hr & Hk & Htr & _).
    exists r. rewrite Htr. split; [done|].
    split; [apply sleeps_schedule_le|].
    split; [apply sleeps_schedule_nonneg|].
    intros Hm.
    pose proof (sum_bounded _ _
      (sleeps_schedule_le (default 1000%Z (baseDelay opts))
         (default 10000%Z (maxDelay opts)) k 1)) as Hsum.
    rewrite sleeps_schedule in Hsum. nia.
  - exists (Run (Rejected None) w []).
    split; [apply retry_skip; lia|]. simpl.
    split; [constructor|]. split; [constructor|]. nia.
Qed.

(** X13: the executor retries only after a rejection the classifier
    accepted: every invocation but the last rejected with such an error;
    and a promise that rejects before the attempts are used up rejects
    with an error the classifier refused. *)
Theorem retried_only_when_accepted fn opts w :
  exists r,
    retryWithExponentialBackoff fn opts w = Some r /\
    (forall j, 1 <= j < invocations (trace r) ->
       exists e, nth_invocation fn w j = Rejected e /\
                 default defaultShouldRetry (shouldRetry opts) e = true) /\
    (forall e, outcome r = Rejected (Some e) ->
       (Z.of_nat (invocations (trace r))
          < default 3%Z (maxAttempts opts))%Z ->
       default defaultShouldRetry (shouldRetry opts) e = false).
Proof.
  destruct (Z_le_gt_dec 1 (default 3%Z (maxAttempts opts))) as [Hge|Hlt].
  - destruct (retry_run fn opts w Hge)
      as (k & r & Hr & Hk & Htr & _ & Hpre & Hend).
    exists r. rewrite Htr, invocations_schedule. split; [done|]. split.
    + intros [|j] Hj; [lia|]. apply Hpre. lia.
    + intros e Hout Hearly.
      destruct (nth_invocation fn w (S k)) as [v|e']; [congruence|].
      destruct Hend as [Hout' [Hlast|Hno]]; [lia|]. congruence.
  - exists (Run (Rejected None) w []).
    split; [apply retry_skip; lia|]. simpl.
    split; [intros j Hj; lia|]. intros e [=].
Qed.

End RetryFurther.

(** * Properties of the weather service and of its controller *)

Section ServiceProperties.

Import Retry Weather.

Context {E Value W : Type} `{ErrorShape E} `{ErrorMessage E}.

Variable null : Value.
Variable truthy : Value -> bool.
Variables trim toLowerCase : string -> string.
Variable clock : W -> Z.
Variable fetchWeather : string -> W -> settled E Value * W.
Variable getMockWeatherData : string -> W -> Value * W.
Variable cfg : config.

Implicit Types (c : string) (w : W)
  (cache : gmap string (@Cache.cache_item Value)).

(** The test that guards [getWeatherByCity], for a string. *)
Lemma city_test_false c :
  String.eqb c "" || (String.length (trim c) =? 0) = false <->
  c <> "" /\ trim c <> "".
Proof.
  rewrite orb_false_iff, String.eqb_neq, Nat.eqb_neq.
  split; intros [Hc Ht]; (split; [done|]).
  - intros Heq. by rewrite Heq in Ht.
  - by destruct (trim c).
Qed.

Lemma city_test_true c :
  String.eqb c "" || (String.length (trim c) =? 0) = true <->
  c = "" \/ trim c = "".
Proof.
  rewrite orb_true_iff, String.eqb_eq, Nat.eqb_eq.
  split; (intros [Hc|Ht]; [by left|right]).
  - by destruct (trim c).
  - by rewrite Ht.
Qed.

(** [fetchWeatherFromAPI] always settles; it invokes the upstream
    operation at most [maxRetryAttempts] times, and not at all without an
    API key. *)
Lemma fetch_settles city w :
  exists r,
    fetchWeatherFromAPI fetchWeather getMockWeatherData cfg city w = Some r /\
    (Z.of_nat (invocations (trace r)) <= Z.max 0 (maxRetryAttempts cfg))%Z /\
    (no_api_key cfg = true ->
       r = Run (Fulfilled (getMockWeatherData city w).1)
             (getMockWeatherData city w).2 []) /\
    (no_api_key cfg = false -> (maxRetryAttempts cfg <= 0)%Z ->
       r = Run (Rejected None) w []).
Proof.
  unfold fetchWeatherFromAPI. destruct (no_api_key cfg) eqn:Hkey.
  - eexists. split; [done|]. simpl. split; [lia|]. by split.
  - destruct (Z_le_gt_dec 1 (maxRetryAttempts cfg)) as [Hge|Hlt].
    + destruct (retry_run (fetchWeather city)
                  (Options (Some (maxRetryAttempts cfg)) (Some 1000%Z)
                     (Some 8000%Z) None) w Hge)
        as (k & r & Hr & Hk & Htr & _).
      exists r. split; [done|]. rewrite Htr, invocations_schedule.
      simpl in Hk. split; [lia|]. split; [done|]. lia.
    + eexists. split; [apply retry_skip; simpl; lia|]. simpl.
      split; [lia|]. by split.
Qed.

Lemma blank_city_rejected c cache w :
  c = "" \/ trim c = "" ->
  getWeatherByCity null truthy trim toLowerCase clock fetchWeather
    getMockWeatherData cfg (CityString c) cache w
  = Some (Reply (Rejected CityRequired) cache w []).
Proof.
  intros Hbad. unfold getWeatherByCity.
  apply city_test_true in Hbad. by rewrite Hbad.
Qed.

(** X14: a city that is not a string, is the empty string, or is blank
    once trimmed is rejected with the service's own error before the cache
    or the upstream is touched; and that error is raised for no other
    input. *)
Theorem invalid_city_rejected city cache w :
  (city = CityOther \/
   (exists c, city = CityString c /\ (c = "" \/ trim c = "")) ->
   getWeatherByCity null truthy trim toLowerCase clock fetchWeather
    getMockWeatherData cfg city cache w = Some (Reply (Rejected CityRequired) cache w []))
  /\
  (forall rep, getWeatherByCity null truthy trim toLowerCase clock fetchWeather
    getMockWeatherData cfg city cache w = Some rep ->
     result rep = Rejected CityRequired ->
     city = CityOther \/
     (exists c, city = CityString c /\ (c = "" \/ trim c = ""))).
Proof.
  split.
  - intros [->|(c & -> & Hbad)]; [done|]. by apply blank_city_rejected.
  - intros rep Hrep Hres. destruct city as [c|]; [|by left].
    right. exists c. split; [done|]. apply city_test_true.
    unfold getWeatherByCity in Hrep.
    destruct (String.eqb c "" || (String.length (trim c) =? 0)); [done|].
    exfalso. revert Hrep.
    destruct (truthy _).
    { intros [= <-]. discriminate Hres. }
    destruct (fetchWeatherFromAPI fetchWeather getMockWeatherData cfg _ w) as [r|]; [|done].
    destruct (outcome r) as [d|[e|]]; intros [= <-]; discriminate Hres.
Qed.

(** X15: when the cache holds, under the key of the city, an entry that
    has not expired and whose data is truthy, the lookup fulfils with that
    data, the upstream is not invoked, and the cache is left as it is (the
    entry keeps its expiration instant). *)
Theorem cache_hit_skips_fetch c cache w item :
  c <> "" -> trim c <> "" ->
  cache !! cache_key trim toLowerCase c = Some item ->
  (clock w <= Cache.expiresAt item)%Z ->
  truthy (Cache.data item) = true ->
  getWeatherByCity null truthy trim toLowerCase clock fetchWeather
    getMockWeatherData cfg (CityString c) cache w
  = Some (Reply (Fulfilled (Cache.data item)) cache w []).
Proof.
  intros Hc Ht Hk Hfresh Htruthy. unfold getWeatherByCity.
  rewrite (proj2 (city_test_false c)) by done.
  unfold cache_key in Hk. unfold Cache.get. rewrite Hk.
  apply expired_false in Hfresh. rewrite Hfresh. simpl. by rewrite Htruthy.
Qed.

(** X16: on a miss, data fetched with success is stored under the key of
    the city with [expiresAt = now + cacheTtl], [now] read after the
    fetch; if the data is truthy, then until that instant a lookup of any
    spelling with the same trimmed lower-case form is answered from the
    cache with the same data, without invoking the upstream. *)
Theorem fetched_data_is_cached c cache w rep (d : Value) :
  c <> "" -> trim c <> "" ->
  truthy (Cache.get null (clock w) (cache_key trim toLowerCase c) cache).1 = false ->
  getWeatherByCity null truthy trim toLowerCase clock fetchWeather
    getMockWeatherData cfg (CityString c) cache w = Some rep ->
  result rep = Fulfilled d ->
  cache_after rep !! cache_key trim toLowerCase c
    = Some (Cache.CacheItem d (clock (end_world rep) + cacheTtl cfg)) /\
  (truthy d = true ->
   forall c' w',
     c' <> "" -> trim c' <> "" ->
     toLowerCase (trim c') = toLowerCase (trim c) ->
     (clock w' <= clock (end_world rep) + cacheTtl cfg)%Z ->
     getWeatherByCity null truthy trim toLowerCase clock fetchWeather
    getMockWeatherData cfg (CityString c') (cache_after rep) w'
     = Some (Reply (Fulfilled d) (cache_after rep) w' [])).
Proof.
  intros Hc Ht Hmiss Hrep Hres.
  assert (Hstored : cache_after rep !! cache_key trim toLowerCase c
    = Some (Cache.CacheItem d (clock (end_world rep) + cacheTtl cfg))).
  { unfold getWeatherByCity in Hrep.
    rewrite (proj2 (city_test_false c)) in Hrep by done.
    unfold cache_key in Hmiss. rewrite Hmiss in Hrep.
    destruct (fetchWeatherFromAPI fetchWeather getMockWeatherData cfg _ w) as [r|]; [|done].
    destruct (outcome r) as [d'|[e|]]; injection Hrep as <-;
      simpl in Hres; try discriminate Hres.
    injection Hres as ->. simpl. unfold Cache.set, cache_key.
    apply lookup_insert_eq. }
  split; [done|]. intros Htruthy c' w' Hc' Ht' Hsame Hfresh.
  unfold getWeatherByCity. rewrite (proj2 (city_test_false c')) by done.
  unfold cache_key in Hstored. unfold Cache.get. rewrite Hsame, Hstored.
  assert (Hx : Cache.expired (clock w')
                 (Cache.CacheItem d (clock (end_world rep) + cacheTtl cfg))
               = false) by (by apply expired_false).
  rewrite Hx. simpl. by rewrite Htruthy.
Qed.

(** X17: a lookup that fails caches nothing: whatever it rejects with,
    every entry of the cache afterwards was there before, unchanged. *)
Theorem failed_lookup_caches_nothing city cache w rep err :
  getWeatherByCity null truthy trim toLowerCase clock fetchWeather
    getMockWeatherData cfg city cache w = Some rep ->
  result rep = Rejected err ->
  cache_after rep ⊆ cache.
Proof.
  intros Hrep Hres. unfold getWeatherByCity in Hrep.
  destruct city as [c|]; [|by injection Hrep as <-].
  destruct (String.eqb c "" || (String.length (trim c) =? 0));
    [by injection Hrep as <-|].
  pose proof (get_store_subseteq null (clock w)
    (String.append "weather:" (toLowerCase (trim c))) cache) as Hsub.
  destruct (truthy _); [by injection Hrep as <-|].
  destruct (fetchWeatherFromAPI fetchWeather getMockWeatherData cfg _ w) as [r|]; [|done].
  destruct (outcome r) as [d|[e|]]; injection Hrep as <-; simpl in *;
    try done.
Qed.


(** X18: every lookup settles, and it invokes the upstream operation at
    most [maxRetryAttempts] times; never when no API key is configured. *)
Theorem upstream_calls_bounded city cache w :
  exists rep,
    getWeatherByCity null truthy trim toLowerCase clock fetchWeather
    getMockWeatherData cfg city cache w = Some rep /\
    (Z.of_nat (invocations (upstream rep))
       <= Z.max 0 (maxRetryAttempts cfg))%Z /\
    (no_api_key cfg = true -> upstream rep = []).
Proof.
  unfold getWeatherByCity. destruct city as [c|].
  2: { eexists. split; [done|]. simpl. split; [lia|done]. }
  destruct (String.eqb c "" || (String.length (trim c) =? 0)).
  { eexists. split; [done|]. simpl. split; [lia|done]. }
  destruct (truthy _).
  { eexists. split; [done|]. simpl. split; [lia|done]. }
  destruct (fetch_settles (toLowerCase (trim c)) w)
    as (r & -> & Hle & Hmock & _).
  destruct (outcome r) as [d|[e|]]; eexists; (split; [done|]); simpl;
    (split; [done|]); intros Hkey; by rewrite (Hmock Hkey).
Qed.

(** X19: with an API key and [maxRetryAttempts <= 0], a lookup that
    misses the cache invokes nothing and rejects with the [TypeError] of
    reading [message] of [undefined], not with an upstream error. *)
Theorem no_attempts_lookup c cache w :
  c <> "" -> trim c <> "" ->
  no_api_key cfg = false ->
  (maxRetryAttempts cfg <= 0)%Z ->
  truthy (Cache.get null (clock w) (cache_key trim toLowerCase c) cache).1 = false ->
  getWeatherByCity null truthy trim toLowerCase clock fetchWeather
    getMockWeatherData cfg (CityString c) cache w
  = Some (Reply (Rejected MessageOfUndefined)
            (Cache.get null (clock w) (cache_key trim toLowerCase c) cache).2 w []).
Proof.
  intros Hc Ht Hkey Hmax Hmiss. unfold getWeatherByCity.
  rewrite (proj2 (city_test_false c)) by done.
  unfold cache_key in Hmiss. rewrite Hmiss.
  destruct (fetch_settles (toLowerCase (trim c)) w)
    as (r & -> & _ & _ & Hskip).
  by rewrite (Hskip Hkey Hmax).
Qed.

(** X20: without an API key a lookup of a valid city never fails: it
    fulfils, from the cache or with mock data, and the mock data is cached
    like fetched data. *)
Theorem mock_mode_never_fails c cache w :
  c <> "" -> trim c <> "" ->
  no_api_key cfg = true ->
  exists rep d,
    getWeatherByCity null truthy trim toLowerCase clock fetchWeather
    getMockWeatherData cfg (CityString c) cache w = Some rep /\
    result rep = Fulfilled d /\
    upstream rep = [] /\
    (truthy (Cache.get null (clock w) (cache_key trim toLowerCase c) cache).1 = false ->
     d = (getMockWeatherData (toLowerCase (trim c)) w).1 /\
     cache_after rep !! cache_key trim toLowerCase c
       = Some (Cache.CacheItem d (clock (end_world rep) + cacheTtl cfg))).
Proof.
  intros Hc Ht Hkey. unfold getWeatherByCity.
  rewrite (proj2 (city_test_false c)) by done. unfold cache_key.
  destruct (truthy _) eqn:Hhit.
  - eexists _, _. split; [done|]. simpl. by repeat split.
  - destruct (fetch_settles (toLowerCase (trim c)) w)
      as (r & -> & _ & Hmock & _).
    rewrite (Hmock Hkey). simpl. eexists _, _. split; [done|]. simpl.
    split; [done|]. split; [done|]. intros _. split; [done|].
    unfold Cache.set. apply lookup_insert_eq.
Qed.

(** X24: with an API key and [maxRetryAttempts >= 1], a lookup that misses
    the cache settles as the last upstream invocation did: it fulfils with
    that invocation's data, or rejects with that invocation's error,
    unchanged; at least one invocation is made. *)
Theorem lookup_surfaces_last_attempt c cache w :
  c <> "" -> trim c <> "" ->
  no_api_key cfg = false ->
  (1 <= maxRetryAttempts cfg)%Z ->
  truthy (Cache.get null (clock w) (cache_key trim toLowerCase c) cache).1 = false ->
  exists rep,
    getWeatherByCity null truthy trim toLowerCase clock fetchWeather
    getMockWeatherData cfg (CityString c) cache w = Some rep /\
    1 <= invocations (upstream rep) /\
    end_world rep
      = world_after (fetchWeather (toLowerCase (trim c)))
          (invocations (upstream rep)) w /\
    result rep =
      match nth_invocation (fetchWeather (toLowerCase (trim c))) w
              (invocations (upstream rep)) with
      | Fulfilled d => Fulfilled d
      | Rejected e => Rejected (FetchError e)
      end.
Proof.
  intros Hc Ht Hkey Hmax Hmiss. unfold getWeatherByCity.
  rewrite (proj2 (city_test_false c)) by done.
  unfold cache_key in Hmiss. rewrite Hmiss.
  unfold fetchWeatherFromAPI. rewrite Hkey.
  destruct (retry_run (fetchWeather (toLowerCase (trim c)))
              (Options (Some (maxRetryAttempts cfg)) (Some 1000%Z)
                 (Some 8000%Z) None) w Hmax)
    as (k & r & -> & _ & Htr & Hwd & _ & Hend).
  destruct (nth_invocation _ w (S k)) as [d|e] eqn:Hlast.
  - rewrite Hend. eexists. split; [done|]. simpl.
    rewrite Htr, invocations_schedule, Hlast. split; [lia|]. by split.
  - destruct Hend as [-> _]. eexists. split; [done|]. simpl.
    rewrite Htr, invocations_schedule, Hlast. split; [lia|]. by split.
Qed.



(** X22: a request whose [city] is absent, empty, blank once trimmed, or
    not a string is answered 400 "Bad Request", and neither the cache nor
    the upstream is touched. *)
Theorem getWeather_bad_city city cache w :
  city = QueryAbsent \/ city = QueryOther \/
  (exists c, city = QueryString c /\ (c = "" \/ trim c = "")) ->
  exists msg ex,
    getWeather null truthy trim toLowerCase clock fetchWeather
    getMockWeatherData cfg city cache w
    = Some (Handled (Some (Response 400 (Failure "Bad Request" msg ex)))
              cache w []).
Proof.
  intros [->|[->|(c & -> & Hbad)]].
  - by eexists _, _.
  - by eexists _, _.
  - unfold getWeather. destruct (String.eqb c "") eqn:Hc;
      [by eexists _, _|].
    rewrite blank_city_rejected by done. simpl. by eexists _, _.
Qed.

End ServiceProperties.

(** * The further properties at concrete inputs *)

Section CacheFurtherExamples.

Import Cache.

Lemma get_never_stale_witness :
  exists item,
    two_cities !! "weather:paris" = Some item /\
    data item = JStr "rain" /\
    (200 <= expiresAt item)%Z /\
    (get JNull 200 "weather:paris" two_cities).2 = two_cities.
Proof.
  apply (get_never_stale JNull 200 "weather:paris" two_cities (JStr "rain")).
  - by vm_compute.
  - discriminate.
Defined.

Lemma cleanup_invisible_to_get_witness :
  (get JNull 200 "weather:oslo" (cleanup 120 two_cities)).1
    = (get JNull 200 "weather:oslo" two_cities).1 /\
  (get JNull 200 "weather:oslo" (cleanup 120 two_cities)).2
    = cleanup 120 (get JNull 200 "weather:oslo" two_cities).2.
Proof.
  apply (cleanup_invisible_to_get JNull 120 200 "weather:oslo" two_cities).
  lia.
Defined.

Lemma cleanup_later_subsumes_witness :
  cleanup 200 (cleanup 120 two_cities) = cleanup 200 two_cities /\
  cleanup 120 (cleanup 200 two_cities) = cleanup 200 two_cities.
Proof. apply (cleanup_later_subsumes 120 200 two_cities). lia. Defined.

Lemma stats_over_time_witness :
  validEntries (getStats 200 two_cities)
    <= validEntries (getStats 120 two_cities) /\
  expiredEntries (getStats 120 two_cities)
    <= expiredEntries (getStats 200 two_cities) /\
  totalEntries (getStats 200 two_cities)
    = totalEntries (getStats 120 two_cities).
Proof. apply (stats_over_time 120 200 two_cities). lia. Defined.

Lemma ttl_window_witness :
  get JNull 60100 "weather:paris"
    (set 100 "weather:paris" (JStr "rain") 60000 ∅)
    = (JStr "rain", set 100 "weather:paris" (JStr "rain") 60000 ∅) /\
  get JNull 60101 "weather:paris"
    (set 100 "weather:paris" (JStr "rain") 60000 ∅)
    = (JNull, delete "weather:paris" ∅).
Proof.
  split.
  - apply (proj1 (ttl_window JNull 100 60100 "weather:paris" (JStr "rain")
                    60000 ∅)). lia.
  - apply (proj2 (ttl_window JNull 100 60101 "weather:paris" (JStr "rain")
                    60000 ∅)). lia.
Defined.

(** Between the two instants the entry of Oslo expires. *)
Example stats_before_and_after :
  getStats 120 two_cities = Stats 2 2 0 /\
  getStats 200 two_cities = Stats 2 1 1.
Proof. split; by vm_compute. Qed.

End CacheFurtherExamples.

Section RetryFurtherExamples.

Import Retry.

Lemma retry_until_success_witness :
  exists r,
    retryWithExponentialBackoff (mock (Fulfilled "success"))
      (Options (Some 3%Z) (Some 10%Z) None None)
      [Rejected econnreset; Rejected econnreset] = Some r /\
    outcome r = Fulfilled "success" /\
    invocations (trace r) = 3 /\
    length (sleeps (trace r)) = 2 /\
    world r = world_after (mock (Fulfilled "success")) 3
                [Rejected econnreset; Rejected econnreset].
Proof.
  apply (retry_until_success (mock (Fulfilled "success"))
           (Options (Some 3%Z) (Some 10%Z) None None)
           [Rejected econnreset; Rejected econnreset] 2 "success").
  - simpl. lia.
  - intros j Hj. exists econnreset.
    destruct j as [|[|[|j]]]; try lia; split; reflexivity.
  - reflexivity.
Defined.

Lemma outcome_of_last_invocation_witness :
  exists r,
    retryWithExponentialBackoff always_5xx
      (Options (Some 2%Z) None None None) 0 = Some r /\
    world r = world_after always_5xx (invocations (trace r)) 0 /\
    outcome r =
      match nth_invocation always_5xx 0 (invocations (trace r)) with
      | Fulfilled v => Fulfilled v
      | Rejected e => Rejected (Some e)
      end.
Proof.
  apply (outcome_of_last_invocation always_5xx
           (Options (Some 2%Z) None None None) 0).
  simpl. lia.
Defined.

End RetryFurtherExamples.

Section ServiceExamples.

Import Retry Weather.

Abbreviation demo_lookup :=
  (getWeatherByCity JNull Demo.truthy Demo.trim Demo.toLowerCase Demo.clock
     Demo.fetchWeather Demo.getMockWeatherData).

Abbreviation demo_handle :=
  (getWeather JNull Demo.truthy Demo.trim Demo.toLowerCase Demo.clock
     Demo.fetchWeather Demo.getMockWeatherData).

Lemma cache_hit_skips_fetch_witness :
  demo_lookup Demo.with_key (CityString "  London ") Demo.london_cached
    (100%Z, [])
  = Some (Reply (Fulfilled (JStr "sunny")) Demo.london_cached (100%Z, []) []).
Proof.
  apply (cache_hit_skips_fetch JNull Demo.truthy Demo.trim Demo.toLowerCase
           Demo.clock Demo.fetchWeather Demo.getMockWeatherData
           Demo.with_key "  London " Demo.london_cached (100%Z, [])
           (Cache.CacheItem (JStr "sunny") 180000)).
  - discriminate.
  - vm_compute. discriminate.
  - by vm_compute.
  - simpl. lia.
  - reflexivity.
Defined.

Lemma fetched_data_is_cached_witness :
  exists rep,
    demo_lookup Demo.with_key (CityString "Paris") ∅
      (100%Z, [Rejected econnreset; Fulfilled (JStr "rain")]) = Some rep /\
    upstream rep = [Invoke 1; Log 1 1000; Sleep 1000; Invoke 2] /\
    cache_after rep !! "weather:paris"
      = Some (Cache.CacheItem (JStr "rain") (180 + 180000)) /\
    demo_lookup Demo.with_key (CityString " PARIS ") (cache_after rep)
      (5000%Z, [])
    = Some (Reply (Fulfilled (JStr "rain")) (cache_after rep) (5000%Z, []) []).
Proof.
  exists (Reply (Fulfilled (JStr "rain"))
            (Cache.set 180 "weather:paris" (JStr "rain") 180000 ∅)
            (180%Z, []) [Invoke 1; Log 1 1000; Sleep 1000; Invoke 2]).
  assert (Hrep : demo_lookup Demo.with_key (CityString "Paris") ∅
      (100%Z, [Rejected econnreset; Fulfilled (JStr "rain")])
    = Some (Reply (Fulfilled (JStr "rain"))
              (Cache.set 180 "weather:paris" (JStr "rain") 180000 ∅)
              (180%Z, []) [Invoke 1; Log 1 1000; Sleep 1000; Invoke 2]))
    by (by vm_compute).
  destruct (fetched_data_is_cached JNull Demo.truthy Demo.trim
              Demo.toLowerCase Demo.clock Demo.fetchWeather
              Demo.getMockWeatherData Demo.with_key "Paris" ∅
              (100%Z, [Rejected econnreset; Fulfilled (JStr "rain")])
              _ (JStr "rain")
              ltac:(discriminate) ltac:(vm_compute; discriminate)
              eq_refl Hrep eq_refl) as [Hstored Hnext].
  split; [exact Hrep|]. split; [reflexivity|]. split; [exact Hstored|].
  apply (Hnext eq_refl " PARIS " (5000%Z, [])).
  - discriminate.
  - vm_compute. discriminate.
  - by vm_compute.
  - simpl. lia.
Defined.

Lemma failed_lookup_caches_nothing_witness :
  cache_after
    (Reply (W := Z * list (settled axios_error json))
       (Rejected (FetchError bad_request))
       Demo.london_cached (140%Z, []) [Invoke 1])
  ⊆ Demo.london_cached.
Proof.
  apply (failed_lookup_caches_nothing JNull Demo.truthy Demo.trim
           Demo.toLowerCase Demo.clock Demo.fetchWeather
           Demo.getMockWeatherData Demo.with_key (CityString "Atlantis")
           Demo.london_cached (100%Z, [Rejected bad_request])
           _ (FetchError bad_request)).
  - by vm_compute.
  - reflexivity.
Defined.

Lemma no_attempts_lookup_witness :
  demo_lookup Demo.negative_attempts (CityString "Oslo") ∅ (100%Z, [])
  = Some (Reply (Rejected MessageOfUndefined)
            (Cache.get JNull 100 "weather:oslo" ∅).2 (100%Z, []) []).
Proof.
  apply (no_attempts_lookup JNull Demo.truthy Demo.trim Demo.toLowerCase
           Demo.clock Demo.fetchWeather Demo.getMockWeatherData
           Demo.negative_attempts "Oslo" ∅ (100%Z, [])).
  - discriminate.
  - vm_compute. discriminate.
  - reflexivity.
  - simpl. lia.
  - reflexivity.
Defined.

Lemma mock_mode_never_fails_witness :
  exists rep d,
    demo_lookup Demo.without_key (CityString "Oslo") ∅ (100%Z, [])
      = Some rep /\
    result rep = Fulfilled d /\
    upstream rep = [] /\
    (Demo.truthy (Cache.get JNull 100 "weather:oslo" ∅).1 = false ->
     d = JStr "mock oslo" /\
     cache_after rep !! "weather:oslo"
       = Some (Cache.CacheItem d
                 (Demo.clock (end_world rep) + 180000))).
Proof.
  apply (mock_mode_never_fails JNull Demo.truthy Demo.trim Demo.toLowerCase
           Demo.clock Demo.fetchWeather Demo.getMockWeatherData
           Demo.without_key "Oslo" ∅ (100%Z, [])).
  - discriminate.
  - vm_compute. discriminate.
  - reflexivity.
Defined.

Lemma lookup_surfaces_last_attempt_witness :
  exists rep,
    demo_lookup Demo.with_key (CityString "Atlantis") ∅
      (100%Z, [Rejected bad_request]) = Some rep /\
    1 <= invocations (upstream rep) /\
    end_world rep
      = world_after (Demo.fetchWeather "atlantis")
          (invocations (upstream rep)) (100%Z, [Rejected bad_request]) /\
    result rep =
      match nth_invocation (Demo.fetchWeather "atlantis")
              (100%Z, [Rejected bad_request])
              (invocations (upstream rep)) with
      | Fulfilled d => Fulfilled d
      | Rejected e => Rejected (FetchError e)
      end.
Proof.
  apply (lookup_surfaces_last_attempt JNull Demo.truthy Demo.trim
           Demo.toLowerCase Demo.clock Demo.fetchWeather
           Demo.getMockWeatherData Demo.with_key "Atlantis" ∅
           (100%Z, [Rejected bad_request])).
  - discriminate.
  - vm_compute. discriminate.
  - reflexivity.
  - simpl. lia.
  - reflexivity.
Defined.

Lemma getWeather_bad_city_witness :
  exists msg ex,
    demo_handle Demo.with_key (QueryString "   ") Demo.london_cached
      (100%Z, [])
    = Some (Handled (Some (Response 400 (Failure "Bad Request" msg ex)))
              Demo.london_cached (100%Z, []) []).
Proof.
  apply (getWeather_bad_city JNull Demo.truthy Demo.trim Demo.toLowerCase
           Demo.clock Demo.fetchWeather Demo.getMockWeatherData
           Demo.with_key (QueryString "   ") Demo.london_cached (100%Z, [])).
  right. right. exists "   ". split; [reflexivity|]. right. reflexivity.
Defined.

(** A request served from upstream after one retry, then the statuses of
    the failures: 404 for an unknown city, 503 for a timeout, 500 for a
    connection reset that outlasts the attempts. *)
Example getWeather_statuses :
  (answer <$> demo_handle Demo.with_key (QueryString "Paris") ∅
     (100%Z, [Rejected econnreset; Fulfilled (JStr "rain")]))
    = Some (Some (Response 200 (Success (JStr "rain")))) /\
  (Weather.status <$>
     (demo_handle Demo.with_key (QueryString "Atlantis") ∅
        (100%Z, [Rejected (AxiosError "Request failed with status code 404"
                             (Some 404%Z) (Some "ERR_BAD_REQUEST"))])
      ≫= answer))
    = Some 404%Z /\
  (Weather.status <$>
     (demo_handle Demo.with_key (QueryString "Paris") ∅
        (100%Z, [Rejected (AxiosError "timeout of 10000ms exceeded" None
                             (Some "ECONNABORTED"));
                 Rejected (AxiosError "timeout of 10000ms exceeded" None
                             (Some "ECONNABORTED"));
                 Rejected (AxiosError "timeout of 10000ms exceeded" None
                             (Some "ECONNABORTED"))])
      ≫= answer))
    = Some 503%Z /\
  (Weather.status <$>
     (demo_handle Demo.with_key (QueryString "Paris") ∅ (100%Z, [])
      ≫= answer))
    = Some 500%Z.
Proof. repeat split; by vm_compute. Qed.

End ServiceExamples.
